(** * SeatBookingSystem: the seat grid and the booking ledger

    A shallow embedding of [src/SeatBookingSystem.py] (class
    [SeatBookingSystem]) and the properties of its booking engine.

    Python values are modelled as the program has them:
    - a grid cell is a [str]: ['F'] (free), ['X'] (aisle), ['S'] (storage)
      or an 8-character booking reference;
    - [self.seating] is a list of *references* to row objects; the row
      objects live in a store, so that two entries of [self.seating] can
      denote one and the same row object;
    - [self.bookings] is a dict from reference to the passenger record;
    - an index is an arbitrary integer; Python counts a negative index from
      the end of the list and raises [IndexError] outside [-len, len);
    - [random.choices] reads from a list of draws that stands for the
      pseudo-random generator's future output.

    The methods return their result as a value; the coloured text the
    Python methods build from it is in [Presentation]. The two methods
    that print and read, [show_booking_state] and [run], act on a console
    that holds the lines to be read and what has been written. *)

From Stdlib Require Import ZArith Ascii String List Lia DecimalString.
From stdpp Require Import base option list gmap strings fin_maps.

Local Open Scope string_scope.
Local Open Scope list_scope.
Local Open Scope Z_scope.

(** ** Exceptions and results *)

Inductive exn : Type :=
  | IndexError
  | KeyError (key : string)
  | ValueError (msg : string)
  | Exception (msg : string).

(** A row object is identified by its position in the store. *)
Definition loc := nat.

(** The dict stored under a booking reference (lines 150-156). *)
Record booking : Type := Booking {
  passport_number : string;
  first_name : string;
  last_name : string;
  seat_row : Z;
  seat_column : Z
}.

(** The object state: the store of row objects, [self.seating],
    [self.bookings], and the draws [random.choices] has yet to deliver
    (one entry per call: the indices it picks). *)
Record state : Type := State {
  store : list (list string);
  seating : list loc;
  bookings : gmap string booking;
  rng : list (list nat)
}.

Definition set_store (s : list (list string)) (st : state) : state :=
  State s (seating st) (bookings st) (rng st).
Definition set_bookings (bk : gmap string booking) (st : state) : state :=
  State (store st) (seating st) bk (rng st).
Definition set_rng (draws : list (list nat)) (st : state) : state :=
  State (store st) (seating st) (bookings st) draws.

(** What running a method yields: a value, a raised exception (the state
    reached so far is kept), or [Starved] when the list of draws is used up
    before the sampling loop has returned. *)
Inductive result (A : Type) : Type :=
  | Done (a : A) (st : state)
  | Raised (e : exn) (st : state)
  | Starved.
Arguments Done {A} a st.
Arguments Raised {A} e st.
Arguments Starved {A}.

Definition M (A : Type) : Type := state -> result A.

Definition ret {A} (a : A) : M A := fun st => Done a st.

Definition bind {A B} (m : M A) (k : A -> M B) : M B :=
  fun st =>
    match m st with
    | Done a st' => k a st'
    | Raised e st' => Raised e st'
    | Starved => Starved
    end.

Definition raise {A} (e : exn) : M A := fun st => Raised e st.

Definition get : M state := fun st => Done st st.

Definition put (st' : state) : M unit := fun _ => Done tt st'.

(** The methods are written with stdpp's monad notation
    [x ← m; k] and [m;; k]. *)
#[global] Instance M_ret : MRet M := @ret.
#[global] Instance M_bind : MBind M := fun A B k m => bind m k.

(** [try: m  except IndexError: h] *)
Definition try_except_IndexError {A} (m h : M A) : M A :=
  fun st =>
    match m st with
    | Raised IndexError st' => h st'
    | r => r
    end.

(** ** Python lists *)

(** The position a Python index denotes in a list of length [len];
    [None] is [IndexError]. *)
Definition py_index (len : nat) (i : Z) : option nat :=
  if (0 <=? i) && (i <? Z.of_nat len) then Some (Z.to_nat i)
  else if (- Z.of_nat len <=? i) && (i <? 0) then Some (Z.to_nat (Z.of_nat len + i))
  else None.

(** The element [l[i]] denotes, if any. *)
Definition item {A} (l : list A) (i : Z) : option A :=
  py_index (length l) i ≫= (l !!.).

(** [l[i]] *)
Definition getitem {A} (l : list A) (i : Z) : M A :=
  match item l i with
  | Some x => ret x
  | None => raise IndexError
  end.

(** [x in t] for a tuple of strings. *)
Definition py_in (x : string) (t : list string) : bool :=
  existsb (String.eqb x) t.
Arguments py_in : simpl never.

(** The row object at a location. Every location in [self.seating] of a
    state the program reaches is allocated (lemma [reachable_wf]); for the
    functions to be total an unallocated one reads as the empty list. *)
Definition deref (st : state) (l : loc) : list string :=
  default [] (store st !! l).

(** [self.seating[row][column]] *)
Definition seating_getitem (row column : Z) : M string :=
  st ← get;
  l ← getitem (seating st) row;
  getitem (deref st l) column.

(** [self.seating[row][column] = v]: the row object is updated in place,
    so every entry of [self.seating] that denotes it sees the new value. *)
Definition seating_setitem (row column : Z) (v : string) : M unit :=
  st ← get;
  l ← getitem (seating st) row;
  match py_index (length (deref st l)) column with
  | Some k =>
      put (set_store (<[l := <[k := v]> (deref st l)]> (store st)) st)
  | None => raise IndexError
  end.

(** [self.bookings[key]] *)
Definition bookings_getitem (key : string) : M booking :=
  st ← get;
  match bookings st !! key with
  | Some b => ret b
  | None => raise (KeyError key)
  end.

(** [self.bookings[key] = b] *)
Definition bookings_setitem (key : string) (b : booking) : M unit :=
  st ← get;
  put (set_bookings (<[key := b]> (bookings st)) st).

(** [del self.bookings[key]] *)
Definition bookings_delitem (key : string) : M unit :=
  st ← get;
  match bookings st !! key with
  | Some _ => put (set_bookings (delete key (bookings st)) st)
  | None => raise (KeyError key)
  end.

(** ** [__init__] (lines 44-49) *)

(** A new list object: it gets the next free location. *)
Definition alloc (r : list string) (s : list (list string)) : loc * list (list string) :=
  (length s, s ++ [r]).

(** [[['F' for _ in range(4)] for _ in range(7)]]: seven distinct rows. *)
Fixpoint alloc_rows (n : nat) (s : list (list string)) : list loc * list (list string) :=
  match n with
  | O => ([], s)
  | S n' =>
      let '(l, s1) := alloc (replicate 4 "F") s in
      let '(ls, s2) := alloc_rows n' s1 in
      (l :: ls, s2)
  end.

(** [l[i:j] = new] for [0 <= i <= j <= len(l)]. *)
Definition slice_assign {A} (l : list A) (i j : nat) (new : list A) : list A :=
  take i l ++ new ++ drop j l.

Definition init (draws : list (list nat)) : state :=
  (* self.seating = [['F' for _ in range(4)] for _ in range(7)] *)
  let '(seating0, s0) := alloc_rows 7 [] in
  (* self.seating[3] = ['X', 'X', 'X', 'X'] *)
  let '(aisle, s1) := alloc ["X"; "X"; "X"; "X"] s0 in
  let seating1 := <[3%nat := aisle]> seating0 in
  (* self.seating[5:7] = [['F', 'F', 'S', 'S']] * 2: the list
     multiplication repeats the reference to one row object *)
  let '(last, s2) := alloc ["F"; "F"; "S"; "S"] s1 in
  let seating2 := slice_assign seating1 5 7 (replicate 2 last) in
  (* self.bookings = {} *)
  State s2 seating2 ∅ draws.

(** ** [generate_unique_booking_reference] (lines 58-69) *)

(** [string.ascii_uppercase + string.digits] *)
Definition alphabet : list ascii :=
  list_ascii_of_string "ABCDEFGHIJKLMNOPQRSTUVWXYZ" ++ list_ascii_of_string "0123456789".

(** [random.choices(population, k=k)] takes the next draw: [k] elements of [population], with
    replacement; the i-th is the one at index [floor(random() * n)], which
    the next draw supplies (an entry is read modulo [n], a missing one
    as 0). *)
Definition choices (population : list ascii) (k : nat) (d : list nat) : list ascii :=
  map (fun i => nth (nth i d 0%nat mod length population)%nat population "000"%char)
      (seq 0 k).

Definition random_choices (population : list ascii) (k : nat) : M (list ascii) :=
  fun st =>
    match rng st with
    | [] => Starved
    | d :: rest => Done (choices population k d) (set_rng rest st)
    end.

(** The [while True:] loop; [n] bounds the number of iterations. *)
Fixpoint generate_loop (n : nat) : M string :=
  match n with
  | O => fun _ => Starved
  | S n' =>
      cs ← random_choices alphabet 8;
      let reference := string_of_list_ascii cs in
      st ← get;
      if decide (reference ∉ dom (bookings st)) then mret reference
      else generate_loop n'
  end.

(** Every iteration consumes one draw, so with one more iteration than
    there are draws the bound is never what ends the loop. *)
Definition generate_unique_booking_reference : M string :=
  fun st => generate_loop (S (length (rng st))) st.

(** ** [is_seat_valid] (lines 71-98) *)

Definition is_seat_valid (row column : option Z) (seat : option string) : M bool :=
  match seat with
  | Some seat => mret (negb (py_in seat ["X"; "S"]))
  | None =>
      match row, column with
      | Some row, Some column =>
          try_except_IndexError
            (c ← seating_getitem row column; mret (negb (py_in c ["X"; "S"])))
            (mret false)
      | _, _ => raise (Exception "Row and column must have a number!")
      end
  end.

(** ** [check_availability] (lines 100-126) *)

(** The three [return] statements of [check_availability]. *)
Inductive QueryResult : Type :=
  | Invalid
  | Available
  | Taken (reference passport first last : string).

Definition check_availability (row column : Z) : M QueryResult :=
  valid ← is_seat_valid (Some row) (Some column) None;
  if negb valid then mret Invalid
  else
    seat ← seating_getitem row column;
    if String.eqb seat "F" then mret Available
    else
      b1 ← bookings_getitem seat;
      b2 ← bookings_getitem seat;
      b3 ← bookings_getitem seat;
      mret (Taken seat (passport_number b1) (first_name b2) (last_name b3)).

(** ** [book_seat] (lines 128-157) *)

Inductive BookResult : Type :=
  | SeatUnavailable
  | Booked (reference : string).

Definition book_seat (row column : Z) (passport first last : string) : M BookResult :=
  valid ← is_seat_valid (Some row) (Some column) None;
  (* not valid or self.seating[row][column] != 'F' *)
  refuse ← (if negb valid then mret true
            else c ← seating_getitem row column; mret (negb (String.eqb c "F")));
  if refuse : bool then mret SeatUnavailable
  else
    booking_reference ← generate_unique_booking_reference;
    seating_setitem row column booking_reference;;
    bookings_setitem booking_reference (Booking passport first last row column);;
    mret (Booked booking_reference).

(** ** [free_seat] (lines 159-182) *)

Inductive FreeResult : Type :=
  | AlreadyFreeOrInvalid
  | Freed
  | BookingNotFound.

Definition free_seat (row column : Z) : M FreeResult :=
  valid ← is_seat_valid (Some row) (Some column) None;
  (* not valid or self.seating[row][column] == 'F' *)
  refuse ← (if negb valid then mret true
            else c ← seating_getitem row column; mret (String.eqb c "F"));
  if refuse : bool then mret AlreadyFreeOrInvalid
  else
    booking_reference ← seating_getitem row column;
    st ← get;
    if decide (booking_reference ∈ dom (bookings st)) then
      bookings_delitem booking_reference;;
      seating_setitem row column "F";;
      mret Freed
    else mret BookingNotFound.

(** ** The messages the methods return

    The Python methods return the result as coloured text. The embedding
    returns the result itself; [Presentation] gives the text of each. *)

Module Presentation.

Definition ESC : string := String "027"%char "".
Definition NL : string := String "010"%char "".

(** [ANSI_ESCAPE] *)
Definition ANSI_ESCAPE : string := ESC +:+ "[39m".

(** [TEXT_COLORS] *)
Definition TEXT_COLORS : list (string * string) :=
  [ ("black", ESC +:+ "[30m"); ("dark_blue", ESC +:+ "[34m");
    ("dark_green", ESC +:+ "[32m"); ("dark_aqua", ESC +:+ "[36m");
    ("dark_red", ESC +:+ "[31m"); ("dark_purple", ESC +:+ "[35m");
    ("gold", ESC +:+ "[33m"); ("gray", ESC +:+ "[37m");
    ("dark_gray", ESC +:+ "[90m"); ("blue", ESC +:+ "[94m");
    ("green", ESC +:+ "[92m"); ("aqua", ESC +:+ "[96m");
    ("red", ESC +:+ "[91m"); ("light_purple", ESC +:+ "[95m");
    ("yellow", ESC +:+ "[93m"); ("white", ESC +:+ "[97m") ].

Fixpoint assoc (k : string) (d : list (string * string)) : option string :=
  match d with
  | [] => None
  | (k', v) :: d' => if String.eqb k k' then Some v else assoc k d'
  end.

(** [TextColor(text, color, continuous)] (lines 17-35) *)
Definition TextColor (text color : string) (continuous : bool) : exn + string :=
  match assoc color TEXT_COLORS with
  | Some code => inr (code +:+ text +:+ (if continuous then ANSI_ESCAPE else ""))
  | None => inl (ValueError ("Invalid color name: " +:+ color))
  end.

Definition plus (a b : exn + string) : exn + string :=
  match a, b with
  | inr x, inr y => inr (x +:+ y)
  | inl e, _ => inl e
  | _, inl e => inl e
  end.

(** Lines 113, 118 and 121-126. *)
Definition QueryResult_message (r : QueryResult) : exn + string :=
  match r with
  | Invalid => TextColor "Invalid seat selection." "red" true
  | Available => TextColor "Seat is available" "green" true
  | Taken seat passport first last =>
      plus (plus (TextColor ("Seat is taken." +:+ NL +:+ "---INFO---") "yellow" false)
                 (inr (NL +:+ "Reference Number: " +:+ seat +:+
                       NL +:+ "Passport Number: " +:+ passport +:+
                       NL +:+ "First Name: " +:+ first +:+
                       NL +:+ "Last Name: " +:+ last)))
           (TextColor "" "white" true)
  end.

(** Lines 145 and 157. *)
Definition BookResult_message (r : BookResult) : exn + string :=
  match r with
  | SeatUnavailable => TextColor "Seat cannot be booked." "red" true
  | Booked booking_reference =>
      TextColor ("Seat booked successfully with reference " +:+ booking_reference +:+ ".")
                "green" true
  end.

(** Lines 173, 180 and 182. *)
Definition FreeResult_message (r : FreeResult) : exn + string :=
  match r with
  | AlreadyFreeOrInvalid => TextColor "Seat is already free or cannot be freed." "yellow" true
  | Freed => TextColor "Seat has been freed." "green" true
  | BookingNotFound => TextColor "Booking reference not found." "red" true
  end.

End Presentation.

(** ** The grid, as the specification reads it *)

(** The value of the grid cell in row [r], column [c] (zero-based), when
    there is such a cell. *)
Definition cell (st : state) (r c : nat) : option string :=
  l ← seating st !! r; deref st l !! c.

(** A cell value is a booking reference when it is none of the markers
    ['F'], ['X'], ['S']. *)
Definition is_reference (v : string) : Prop :=
  v ≠ "F" ∧ v ≠ "X" ∧ v ≠ "S".

(** The cell at [(r, c)] holds [Booked(ref)]. *)
Definition holds (st : state) (r c : nat) (ref : string) : Prop :=
  cell st r c = Some ref ∧ is_reference ref.

(** The ledger invariant of the specification: a reference is a key of
    the ledger exactly when some cell holds it, and only one cell does. *)
Definition ledger_matches_grid (st : state) : Prop :=
  ∀ ref,
    (ref ∈ dom (bookings st) ↔ ∃ r c, holds st r c ref) ∧
    (∀ r c r' c', holds st r c ref → holds st r' c' ref → r = r' ∧ c = c').

(** The reference a draw produces (line 66). *)
Definition reference_of_draw (d : list nat) : string :=
  string_of_list_ascii (choices alphabet 8 d).

(** ** Runs of the engine *)

Inductive op : Type :=
  | Check (row column : Z)
  | Book (row column : Z) (passport first last : string)
  | Free (row column : Z).

(** The state a call leaves behind, whether it returns or raises. *)
Definition final_state {A} (r : result A) : option state :=
  match r with
  | Done _ st => Some st
  | Raised _ st => Some st
  | Starved => None
  end.

Definition step (o : op) (st : state) : option state :=
  match o with
  | Check row column => final_state (check_availability row column st)
  | Book row column passport first last =>
      final_state (book_seat row column passport first last st)
  | Free row column => final_state (free_seat row column st)
  end.

(** The states a [SeatBookingSystem] object can be in: the one [__init__]
    builds, and those any sequence of calls leads to. *)
Inductive reachable : state → Prop :=
  | reachable_init draws : reachable (init draws)
  | reachable_step st o st' : reachable st → step o st = Some st' → reachable st'.

(** The references handed out by a sequence of bookings. *)
Fixpoint book_all (reqs : list (Z * Z * string * string * string)) (st : state)
  : option (list string * state) :=
  match reqs with
  | [] => Some ([], st)
  | (row, column, passport, first, last) :: reqs' =>
      match book_seat row column passport first last st with
      | Done (Booked ref) st' =>
          '(refs, st'') ← book_all reqs' st'; Some (ref :: refs, st'')
      | Done SeatUnavailable st' => book_all reqs' st'
      | _ => None
      end
  end.

(** ** Pure readings of the state, used to state what the methods do *)

(** The value of [self.seating[row][column]], [None] when the expression
    raises [IndexError]. *)
Definition cell_at (st : state) (row column : Z) : option string :=
  l ← item (seating st) row; item (deref st l) column.

(** The state after [self.seating[row][column] = v], [None] when the
    assignment raises [IndexError]. *)
Definition write_at (st : state) (row column : Z) (v : string) : option state :=
  l ← item (seating st) row;
  k ← py_index (length (deref st l)) column;
  Some (set_store (<[l := <[k := v]> (deref st l)]> (store st)) st).

(** The first draw that is not a key of the ledger, and the draws left
    after it. *)
Fixpoint first_fresh (bk : gmap string booking) (draws : list (list nat))
  : option (string * list (list nat)) :=
  match draws with
  | [] => None
  | d :: rest =>
      if decide (reference_of_draw d ∉ dom bk) then Some (reference_of_draw d, rest)
      else first_fresh bk rest
  end.

(** Every entry of [self.seating] denotes an allocated row object. *)
Definition wf (st : state) : Prop :=
  ∀ l, l ∈ seating st → is_Some (store st !! l).

(** The shape [__init__] gives the grid: seven entries, the last two
    denoting one row object. *)
Definition layout : list loc := [0; 1; 2; 7; 4; 8; 8]%nat.

(** What the specification asks of a reference: eight characters, each
    one of the alphabet. *)
Definition well_formed_reference (ref : string) : Prop :=
  String.length ref = 8%nat ∧ Forall (fun ch => ch ∈ alphabet) (list_ascii_of_string ref).

(** An upper-case letter or a digit, by its code. *)
Definition upper_or_digit (ch : ascii) : bool :=
  let n := nat_of_ascii ch in
  ((65 <=? n) && (n <=? 90) || (48 <=? n) && (n <=? 57))%nat.

(** The grid has the shape [__init__] gave it: seven entries in
    [self.seating], nine row objects allocated, each of four cells. *)
Definition shape (st : state) : Prop :=
  seating st = layout ∧ length (store st) = 9%nat ∧
  Forall (fun r => length r = 4%nat) (store st).

(** The cell [k] of the row object at [l]. *)
Definition slot (st : state) (l : loc) (k : nat) : option string :=
  r ← store st !! l; r !! k.

(** The row object at [l] is one the grid shows, and its cell [k] holds
    the reference [ref]. *)
Definition used (st : state) (l : loc) (k : nat) (ref : string) : Prop :=
  l ∈ seating st ∧ slot st l k = Some ref ∧ is_reference ref.

(** The ledger invariant the code does keep: the keys of the ledger are
    the references in the row objects of the grid, and a reference is in
    one cell of one row object. *)
Definition ledger_matches_store (st : state) : Prop :=
  (∀ ref, ref ∈ dom (bookings st) ↔ ∃ l k, used st l k ref) ∧
  (∀ ref l k l' k', used st l k ref → used st l' k' ref → l = l' ∧ k = k').

(** The row object and the position in it that [self.seating[row][column]]
    denotes, when it denotes one. *)
Definition slot_of (st : state) (row column : Z) : option (loc * nat) :=
  l ← item (seating st) row;
  k ← py_index (length (deref st l)) column;
  Some (l, k).

(** The markers of the seats that cannot be booked. *)
Definition is_marker (v : string) : Prop := v = "X" ∨ v = "S".

(** The markers are where [__init__] put them, and nowhere else. *)
Definition markers_fixed (st : state) : Prop :=
  ∀ l k m, is_marker m → (slot st l k = Some m ↔ slot (init []) l k = Some m).

(** The cells of the row objects of the grid that [__init__] leaves
    ['F']: four in each of the rows 0, 1, 2 and 4, two in the row object
    that rows 5 and 6 share. *)
Definition bookable_slots : list (loc * nat) :=
  [ (0, 0); (0, 1); (0, 2); (0, 3); (1, 0); (1, 1); (1, 2); (1, 3);
    (2, 0); (2, 1); (2, 2); (2, 3); (4, 0); (4, 1); (4, 2); (4, 3);
    (8, 0); (8, 1) ]%nat.

(** Between two states the only grid cells that differ are the seat
    [(r, c)] and, when [r] is 5 or 6, the same column of the other of the
    two rows. *)
Definition only_seat_changed (st st' : state) (r c : nat) : Prop :=
  ∀ r' c', cell st' r' c' ≠ cell st r' c' →
           c' = c ∧ (r' = r ∨ (r = 5 ∧ r' = 6) ∨ (r = 6 ∧ r' = 5))%nat.

(** The coordinates a ledger entry records lead to the cell that holds
    its reference. *)
Definition coordinates_agree (st : state) : Prop :=
  ∀ ref b, bookings st !! ref = Some b →
           cell_at st (seat_row b) (seat_column b) = Some ref.

(** The draws still to come give references that differ from one another
    and from the keys of the ledger. *)
Definition fresh_draws (st : state) : Prop :=
  NoDup (map reference_of_draw (rng st)) ∧
  Forall (fun d => reference_of_draw d ∉ dom (bookings st)) (rng st).

(** ** The console: [show_booking_state] and [run] (lines 184-235)

    [print] and [input] act on a console: the lines still to be read and
    what has been written. A written piece is [Printed] (by [print]: the
    text and a newline) or [Prompted] (by [input]: its prompt, no
    newline). [input] raises [EOFError] when no line is left. A [string]
    read from the console is a sequence of code points below 256. *)

Inductive event : Type :=
  | Printed (text : string)
  | Prompted (text : string).

Record console : Type := Console {
  stdin : list string;
  stdout : list event
}.

(** What is raised at the console: an exception of the engine, the
    [EOFError] of [input], or the [ValueError] of [int]. *)
Inductive raised : Type :=
  | Engine (e : exn)
  | EOFError
  | IntValueError.

(** As [result], with the console: [Stalled] is [Starved]. *)
Inductive io_result (A : Type) : Type :=
  | Returned (a : A) (st : state) (con : console)
  | Failed (e : raised) (st : state) (con : console)
  | Stalled.
Arguments Returned {A} a st con.
Arguments Failed {A} e st con.
Arguments Stalled {A}.

Definition IO (A : Type) : Type := state -> console -> io_result A.

#[global] Instance IO_ret : MRet IO := fun A a st con => Returned a st con.
#[global] Instance IO_bind : MBind IO := fun A B k m st con =>
  match m st con with
  | Returned a st' con' => k a st' con'
  | Failed e st' con' => Failed e st' con'
  | Stalled => Stalled
  end.

(** A call of a method of the engine. *)
Definition call {A} (m : M A) : IO A := fun st con =>
  match m st with
  | Done a st' => Returned a st' con
  | Raised e st' => Failed (Engine e) st' con
  | Starved => Stalled
  end.

(** The value of a [TextColor(...)] expression. *)
Definition text (t : exn + string) : IO string := fun st con =>
  match t with
  | inr s => Returned s st con
  | inl e => Failed (Engine e) st con
  end.

(** [print(s)] *)
Definition print (s : string) : IO unit := fun st con =>
  Returned tt st (Console (stdin con) (stdout con ++ [Printed s])).

(** [input(prompt)] *)
Definition input (prompt : string) : IO string := fun st con =>
  let written := stdout con ++ [Prompted prompt] in
  match stdin con with
  | line :: rest => Returned line st (Console rest written)
  | [] => Failed EOFError st (Console [] written)
  end.

(** [str(n)] for a natural number. *)
Definition str (n : nat) : string := NilEmpty.string_of_uint (Nat.to_uint n).

(** The body of [for x in row:] (lines 191-193), from [row_line] on. *)
Fixpoint show_cells (row : list string) (row_line : string) : IO string :=
  match row with
  | [] => mret row_line
  | x :: row' =>
      valid ← call (is_seat_valid None None (Some x));
      let x := if valid && negb (String.eqb x "F") then "R" else x in
      t ← text (Presentation.TextColor
                  x (if negb (String.eqb x "F") then "white" else "yellow") false);
      show_cells row' (row_line +:+ (t +:+ " "))
  end.

(** The body of [for i, row in enumerate(self.seating):], from index [i]
    on; a row is the row object its entry denotes. *)
Fixpoint show_rows (i : nat) (rows : list loc) : IO unit :=
  match rows with
  | [] => mret tt
  | l :: rows' =>
      st ← call get;
      row_line ← show_cells (deref st l) "";
      t ← text (Presentation.TextColor (" Row " +:+ str (i + 1)) "white" true);
      print (row_line +:+ t);;
      show_rows (S i) rows'
  end.

Definition show_booking_state : IO unit :=
  st ← call get;
  show_rows 0 (seating st);;
  print "F = Free, X = Aisle, S = Storage, R = Booked".

(** [s.isdigit()]: [s] is not empty and each character is a digit; below
    256 these are ['0'] to ['9'] and the superscripts two, three and one
    (178, 179, 185). *)
Definition is_digit_char (ch : ascii) : bool :=
  let n := nat_of_ascii ch in
  ((48 <=? n) && (n <=? 57) || (n =? 178) || (n =? 179) || (n =? 185))%nat.

Definition isdigit (s : string) : bool :=
  negb (String.eqb s "") && forallb is_digit_char (list_ascii_of_string s).

Definition is_decimal_char (ch : ascii) : bool :=
  let n := nat_of_ascii ch in ((48 <=? n) && (n <=? 57))%nat.

(** The number a string of decimal digits writes. *)
Definition decimal_value (s : string) : Z :=
  fold_left (fun v ch => 10 * v + (Z.of_nat (nat_of_ascii ch) - 48))
            (list_ascii_of_string s) 0.

(** [int(s)] for a string on which [isdigit] holds: its value when every
    character is one of ['0'] to ['9'], [ValueError] on a superscript and,
    when the interpreter limits the digits of a conversion
    ([max_str_digits], 4300 unless set otherwise; 0 is no limit), on
    more digits than that. *)
Definition int_of_digits (max_str_digits : nat) (s : string) : IO Z := fun st con =>
  if forallb is_decimal_char (list_ascii_of_string s)
     && ((max_str_digits =? 0)%nat || (String.length s <=? max_str_digits)%nat)
  then Returned (decimal_value s) st con
  else Failed IntValueError st con.

(** The text [run] prints at the top of each round (line 204). *)
Definition MENU : exn + string :=
  Presentation.plus
    (Presentation.TextColor "---------- SBS CLI ----------" "yellow" true)
    (inr (Presentation.NL +:+ "1. Check seat availability" +:+
          Presentation.NL +:+ "2. Book a seat" +:+
          Presentation.NL +:+ "3. Free a seat" +:+
          Presentation.NL +:+ "4. Show booking state" +:+
          Presentation.NL +:+ "5. Exit")).

(** How a round of the loop ends: [break], or on to the next round
    ([continue] and the end of the body). *)
Inductive control : Type := Break | Next.

(** [input(TextColor("Press enter to continue..."))] (line 233). *)
Definition pause : IO control :=
  t ← text (Presentation.TextColor "Press enter to continue..." "white" true);
  input t;;
  mret Next.

(** One round of [while True:] (lines 203-235). [self.actions] maps
    ['1'] to [check_availability], ['2'] to [book_seat], ['3'] to
    [free_seat] and ['4'] to [show_booking_state]. *)
Definition round (max_str_digits : nat) : IO control :=
  menu ← text MENU;
  print menu;;
  choice ← input "Select an option: ";
  if String.eqb choice "5" then mret Break
  else if py_in choice ["1"; "2"; "3"; "4"] then
    if py_in choice ["1"; "2"; "3"] then
      row ← input "Enter row number: ";
      column ← input "Enter column number: ";
      if negb (isdigit row) || negb (isdigit column) then
        t ← text (Presentation.TextColor
                    "Invalid input. Row and column must be integers." "red" true);
        print t;;
        mret Next
      else
        r ← int_of_digits max_str_digits row;
        c ← int_of_digits max_str_digits column;
        let row := r - 1 in
        let column := c - 1 in
        (if String.eqb choice "2" then
           passport_number ← input "Enter passport number (1234...): ";
           first_name ← input "Enter first name: ";
           last_name ← input "Enter last name: ";
           res ← call (book_seat row column passport_number first_name last_name);
           t ← text (Presentation.BookResult_message res);
           print t
         else if String.eqb choice "1" then
           res ← call (check_availability row column);
           t ← text (Presentation.QueryResult_message res);
           print t
         else
           res ← call (free_seat row column);
           t ← text (Presentation.FreeResult_message res);
           print t);;
        pause
    else if String.eqb choice "4" then
      show_booking_state;;
      pause
    else pause
  else
    t ← text (Presentation.TextColor "Invalid option. Please try again." "red" true);
    print t;;
    mret Next.

(** [while True:], at most [n] rounds. *)
Fixpoint rounds (max_str_digits n : nat) : IO unit :=
  match n with
  | O => fun _ _ => Stalled
  | S n' =>
      c ← round max_str_digits;
      match c with
      | Break => mret tt
      | Next => rounds max_str_digits n'
      end
  end.

(** [run]: every round reads a line, so one round more than there are
    lines is a bound the loop never reaches. *)
Definition run (max_str_digits : nat) : IO unit := fun st con =>
  rounds max_str_digits (S (length (stdin con))) st con.

(** ** What the console methods establish *)

(** Running [m] from [st] and [con] ends in [Q] when it returns and in
    [E] when it raises. *)
Definition wp {A} (m : IO A) (Q : A → state → console → Prop)
    (E : raised → state → console → Prop) (st : state) (con : console) : Prop :=
  match m st con with
  | Returned a st' con' => Q a st' con'
  | Failed e st' con' => E e st' con'
  | Stalled => True
  end.

(** The same, and the run does end. *)
Definition twp {A} (m : IO A) (Q : A → state → console → Prop)
    (E : raised → state → console → Prop) (st : state) (con : console) : Prop :=
  match m st con with
  | Returned a st' con' => Q a st' con'
  | Failed e st' con' => E e st' con'
  | Stalled => False
  end.

(** The symbol [show_booking_state] shows for a cell value: the value
    itself for ['F'], ['X'] and ['S'], and ['R'] for anything else. *)
Definition symbol (x : string) : string :=
  if negb (py_in x ["X"; "S"]) && negb (String.eqb x "F") then "R" else x.

(** The text of a cell in the display: its symbol, yellow for ['F'] and
    white otherwise, and a space. *)
Definition cell_text (x : string) : string :=
  Presentation.ESC +:+ (if String.eqb x "F" then "[93m" else "[97m") +:+ symbol x +:+ " ".

(** The line of row [i]. *)
Definition row_text (i : nat) (row : list string) : string :=
  fold_left (fun line x => line +:+ cell_text x) row "" +:+
  (Presentation.ESC +:+ "[97m" +:+ " Row " +:+ str (i + 1) +:+ Presentation.ANSI_ESCAPE).

Definition legend : string := "F = Free, X = Aisle, S = Storage, R = Booked".

(** The lines of the rows from index [i] on. *)
Fixpoint rows_text (st : state) (i : nat) (rows : list loc) : list string :=
  match rows with
  | [] => []
  | l :: rows' => row_text i (deref st l) :: rows_text st (S i) rows'
  end.

(** Two answers of [check_availability] of the same kind; for [Taken],
    naming the same reference when the references are equally long. *)
Definition same_answer (r1 r2 : QueryResult) : Prop :=
  match r1, r2 with
  | Invalid, Invalid => True
  | Available, Available => True
  | Taken ref1 _ _ _, Taken ref2 _ _ _ => String.length ref1 = String.length ref2 → ref1 = ref2
  | _, _ => False
  end.

(** ** Sample states *)

(** Two draws: the indices of ["ABCDEFGH"] and of ["Z0123456"]. *)
Definition draw_A : list nat := [0; 1; 2; 3; 4; 5; 6; 7]%nat.
Definition draw_Z : list nat := [25; 26; 27; 28; 29; 30; 31; 32]%nat.

(** The state a call leaves behind, [st] itself when the run starves. *)
Definition after {A} (m : M A) (st : state) : state :=
  default st (final_state (m st)).

(** A new object, and the same after booking seat (0, 0). *)
Definition new_system : state := init [draw_A; draw_A; draw_Z].
Definition one_booking : state :=
  after (book_seat 0 0 "P123" "Ann" "Lee") new_system.

(** A new object after booking seat (5, 0). *)
Definition last_row_booking : state :=
  after (book_seat 5 0 "P123" "Ann" "Lee") new_system.

(** A corrupted state: cell (0, 0) holds a reference the ledger lacks. *)
Definition ghost_state : state :=
  set_store (<[0%nat := ["GHOSTREF"; "F"; "F"; "F"]]> (store (init []))) (init []).

(** A new object with eight draws to come, of eight references. *)
Definition fresh_system : state := init (map (fun i => [i]) (seq 0 8)).

(** * Properties *)

(** ** The messages *)

(** Every colour the methods name is a key of [TEXT_COLORS], so building
    the message of a result never raises [ValueError]. *)
Lemma messages_defined :
  (∀ r, ∃ s, Presentation.QueryResult_message r = inr s) ∧
  (∀ r, ∃ s, Presentation.BookResult_message r = inr s) ∧
  (∀ r, ∃ s, Presentation.FreeResult_message r = inr s).
Proof. split_and!; intros []; eexists; reflexivity. Qed.

(** ** Indexing *)

Lemma py_index_lt len i k : py_index len i = Some k → (k < len)%nat.
Proof.
  unfold py_index.
  destruct ((0 <=? i) && (i <? Z.of_nat len)) eqn:E1.
  - intros [= <-]. apply andb_prop in E1 as [H0 H1]. lia.
  - destruct ((- Z.of_nat len <=? i) && (i <? 0)) eqn:E2; [|done].
    intros [= <-]. apply andb_prop in E2 as [H0 H1]. lia.
Qed.

Lemma py_index_of_nat len (n : nat) :
  py_index len (Z.of_nat n) = if decide (n < len)%nat then Some n else None.
Proof.
  unfold py_index.
  replace (0 <=? Z.of_nat n) with true by (symmetry; apply Z.leb_le; lia).
  replace (Z.of_nat n <? 0) with false by (symmetry; apply Z.ltb_ge; lia).
  rewrite andb_false_r. simpl.
  destruct (decide (n < len)%nat).
  - replace (Z.of_nat n <? Z.of_nat len) with true by (symmetry; apply Z.ltb_lt; lia).
    by rewrite Nat2Z.id.
  - by replace (Z.of_nat n <? Z.of_nat len) with false by (symmetry; apply Z.ltb_ge; lia).
Qed.

(** Outside [-len, len) an index denotes nothing. *)
Lemma py_index_out len i : i < - Z.of_nat len ∨ Z.of_nat len ≤ i → py_index len i = None.
Proof.
  intros H. unfold py_index.
  destruct ((0 <=? i) && (i <? Z.of_nat len)) eqn:E1.
  { apply andb_prop in E1 as [H0 H1]. lia. }
  destruct ((- Z.of_nat len <=? i) && (i <? 0)) eqn:E2; [|done].
  apply andb_prop in E2 as [H0 H1]. lia.
Qed.

Lemma item_of_nat {A} (l : list A) (n : nat) : item l (Z.of_nat n) = l !! n.
Proof.
  unfold item. rewrite py_index_of_nat. destruct (decide (n < length l)%nat); simpl; [done|].
  symmetry. apply lookup_ge_None. lia.
Qed.

Lemma item_insert {A} (l : list A) i k v :
  py_index (length l) i = Some k → item (<[k := v]> l) i = Some v.
Proof.
  intros H. unfold item. rewrite length_insert, H. simpl.
  apply list_lookup_insert_eq. by eapply py_index_lt.
Qed.

Lemma cell_at_of_nat st (r c : nat) : cell_at st (Z.of_nat r) (Z.of_nat c) = cell st r c.
Proof.
  unfold cell_at, cell. rewrite item_of_nat.
  destruct (seating st !! r); simpl; [apply item_of_nat | done].
Qed.

(** ** What each method computes *)

Lemma getitem_eq {A} (l : list A) i st :
  getitem l i st = match item l i with Some x => Done x st | None => Raised IndexError st end.
Proof. unfold getitem. by destruct (item l i). Qed.

Lemma seating_getitem_eq row column st :
  seating_getitem row column st =
  match cell_at st row column with
  | Some c => Done c st
  | None => Raised IndexError st
  end.
Proof.
  unfold seating_getitem, cell_at, mbind, M_bind, bind, get. rewrite getitem_eq.
  destruct (item (seating st) row); simpl; [apply getitem_eq | done].
Qed.

Lemma seating_setitem_eq row column v st :
  seating_setitem row column v st =
  match write_at st row column v with
  | Some st' => Done tt st'
  | None => Raised IndexError st
  end.
Proof.
  unfold seating_setitem, write_at, mbind, M_bind, bind, get. rewrite getitem_eq.
  destruct (item (seating st) row) as [l|]; simpl; [|done].
  by destruct (py_index (length (deref st l)) column).
Qed.

Lemma bookings_getitem_eq key st :
  bookings_getitem key st =
  match bookings st !! key with
  | Some b => Done b st
  | None => Raised (KeyError key) st
  end.
Proof.
  unfold bookings_getitem, mbind, M_bind, bind, get. by destruct (bookings st !! key).
Qed.

Lemma is_seat_valid_eq row column st :
  is_seat_valid (Some row) (Some column) None st =
  Done (match cell_at st row column with
        | Some c => negb (py_in c ["X"; "S"])
        | None => false
        end) st.
Proof.
  unfold is_seat_valid, try_except_IndexError, mbind, M_bind, bind.
  rewrite seating_getitem_eq. by destruct (cell_at st row column).
Qed.

Lemma check_availability_eq row column st :
  check_availability row column st =
  match cell_at st row column with
  | None => Done Invalid st
  | Some c =>
      if py_in c ["X"; "S"] then Done Invalid st
      else if String.eqb c "F" then Done Available st
      else match bookings st !! c with
           | Some b => Done (Taken c (passport_number b) (first_name b) (last_name b)) st
           | None => Raised (KeyError c) st
           end
  end.
Proof.
  unfold check_availability, mbind, M_bind, bind. rewrite is_seat_valid_eq.
  destruct (cell_at st row column) as [c|] eqn:Hc; simpl; [|done].
  destruct (py_in c ["X"; "S"]); simpl; [done|].
  rewrite seating_getitem_eq, Hc.
  destruct (String.eqb c "F"); [done|].
  rewrite bookings_getitem_eq.
  destruct (bookings st !! c) as [b|] eqn:Hb; [|done].
  by do 2 (rewrite bookings_getitem_eq, Hb).
Qed.

(** ** Writing a cell *)

Lemma deref_lookup st l c v : deref st l !! c = Some v → store st !! l = Some (deref st l).
Proof. unfold deref. destruct (store st !! l); simpl; [done | by rewrite lookup_nil]. Qed.

Lemma cell_at_inv st row column c :
  cell_at st row column = Some c →
  ∃ l k,
    item (seating st) row = Some l ∧ store st !! l = Some (deref st l) ∧
    py_index (length (deref st l)) column = Some k ∧ deref st l !! k = Some c.
Proof.
  unfold cell_at. destruct (item (seating st) row) as [l|] eqn:Hl; simpl; [|done].
  unfold item at 1.
  destruct (py_index (length (deref st l)) column) as [k|] eqn:Hk; simpl; [|done].
  intros Hc. exists l, k. split_and!; [done | by eapply deref_lookup | done | done].
Qed.

Lemma write_at_cell st row column c v :
  cell_at st row column = Some c →
  ∃ st', write_at st row column v = Some st' ∧ cell_at st' row column = Some v ∧
         seating st' = seating st ∧ bookings st' = bookings st ∧ rng st' = rng st.
Proof.
  intros (l & k & Hl & Hs & Hk & Hc)%cell_at_inv.
  unfold write_at. rewrite Hl. simpl. rewrite Hk. simpl.
  eexists; split; [done|]. split; [|done].
  unfold cell_at. simpl. rewrite Hl. simpl.
  assert (deref (set_store (<[l := <[k := v]> (deref st l)]> (store st)) st) l
          = <[k := v]> (deref st l)) as ->.
  { unfold deref at 1. simpl. rewrite list_lookup_insert_eq; [done|].
    by eapply lookup_lt_Some. }
  by apply item_insert.
Qed.

(** ** The sampling loop *)

Lemma generate_loop_S n st :
  generate_loop (S n) st =
  match rng st with
  | [] => Starved
  | d :: rest =>
      if decide (reference_of_draw d ∉ dom (bookings st))
      then Done (reference_of_draw d) (set_rng rest st)
      else generate_loop n (set_rng rest st)
  end.
Proof.
  cbn [generate_loop]. unfold mbind, M_bind, bind, random_choices, get, reference_of_draw.
  destruct (rng st) as [|d rest]; [done|].
  cbn [set_rng bookings].
  by destruct (decide (string_of_list_ascii (choices alphabet 8 d) ∉ dom (bookings st))).
Qed.

Lemma generate_loop_eq n : ∀ st,
  (length (rng st) < n)%nat →
  generate_loop n st =
  match first_fresh (bookings st) (rng st) with
  | Some (ref, rest) => Done ref (set_rng rest st)
  | None => Starved
  end.
Proof.
  induction n as [|n IH]; intros st Hn; [lia|].
  rewrite generate_loop_S.
  destruct (rng st) as [|d rest] eqn:Hr; [done|].
  cbn [first_fresh].
  destruct (decide (reference_of_draw d ∉ dom (bookings st))); [done|].
  rewrite IH by (simpl in *; lia). cbn [set_rng bookings rng].
  by destruct (first_fresh (bookings st) rest) as [[ref rest']|].
Qed.

Lemma generate_unique_booking_reference_eq st :
  generate_unique_booking_reference st =
  match first_fresh (bookings st) (rng st) with
  | Some (ref, rest) => Done ref (set_rng rest st)
  | None => Starved
  end.
Proof. unfold generate_unique_booking_reference. apply generate_loop_eq. lia. Qed.

Lemma first_fresh_Some bk draws ref rest :
  first_fresh bk draws = Some (ref, rest) →
  (ref ∉ dom bk) ∧ (∃ d, d ∈ draws ∧ ref = reference_of_draw d).
Proof.
  induction draws as [|d draws IH]; simpl; [done|].
  destruct (decide (reference_of_draw d ∉ dom bk)) as [Hd|Hd].
  - intros [= <- <-]. split; [done|]. exists d. split; [left | done].
  - intros [Hf (d' & Hin & ->)]%IH. split; [done|]. exists d'. split; [by right | done].
Qed.

(** The loop returns as soon as some draw is fresh. *)
Lemma first_fresh_Exists bk draws :
  Exists (fun d => reference_of_draw d ∉ dom bk) draws → is_Some (first_fresh bk draws).
Proof.
  induction 1 as [d draws Hd | d draws _ IH]; simpl.
  - rewrite decide_True by done. eauto.
  - destruct (decide (reference_of_draw d ∉ dom bk)); eauto.
Qed.

(** ** The shape of a reference *)

Lemma length_string_of_list_ascii cs :
  String.length (string_of_list_ascii cs) = length cs.
Proof. induction cs as [|c cs IH]; simpl; [done | by rewrite IH]. Qed.

Lemma list_ascii_of_string_of_list cs :
  list_ascii_of_string (string_of_list_ascii cs) = cs.
Proof. induction cs as [|c cs IH]; simpl; [done | by rewrite IH]. Qed.

Lemma choices_length population k d : length (choices population k d) = k.
Proof. unfold choices. by rewrite length_map, length_seq. Qed.

Lemma choices_elem population k d :
  population ≠ [] → Forall (fun ch => ch ∈ population) (choices population k d).
Proof.
  intros Hne. unfold choices. apply Forall_map, Forall_forall. intros i _. simpl.
  apply list_elem_of_In, nth_In, Nat.mod_upper_bound.
  by destruct population.
Qed.

Lemma reference_of_draw_length d : String.length (reference_of_draw d) = 8%nat.
Proof. unfold reference_of_draw. by rewrite length_string_of_list_ascii, choices_length. Qed.

Lemma reference_of_draw_alphabet d :
  Forall (fun ch => ch ∈ alphabet) (list_ascii_of_string (reference_of_draw d)).
Proof.
  unfold reference_of_draw. rewrite list_ascii_of_string_of_list.
  by apply choices_elem.
Qed.

(** An 8-character string is none of the one-character markers. *)
Lemma length8_is_reference ref : String.length ref = 8%nat → is_reference ref.
Proof. intros H. repeat split; intros ->; discriminate H. Qed.

Lemma is_reference_py_in ref : is_reference ref → py_in ref ["X"; "S"] = false.
Proof.
  intros (_ & HX & HS). unfold py_in. simpl.
  apply String.eqb_neq in HX, HS. by rewrite HX, HS.
Qed.

Lemma is_reference_eqb_F ref : is_reference ref → String.eqb ref "F" = false.
Proof. intros (HF & _). by apply String.eqb_neq. Qed.

(** ** [book_seat] and [free_seat] *)

Lemma book_seat_eq row column passport first last st :
  book_seat row column passport first last st =
  if decide (cell_at st row column = Some "F") then
    match first_fresh (bookings st) (rng st) with
    | None => Starved
    | Some (ref, rest) =>
        match write_at (set_rng rest st) row column ref with
        | Some st1 =>
            Done (Booked ref)
                 (set_bookings (<[ref := Booking passport first last row column]> (bookings st1)) st1)
        | None => Raised IndexError (set_rng rest st)
        end
    end
  else Done SeatUnavailable st.
Proof.
  unfold book_seat, mbind, M_bind, bind. rewrite is_seat_valid_eq.
  destruct (cell_at st row column) as [c|] eqn:Hc; cbn [negb].
  2: { by case_decide. }
  destruct (py_in c ["X"; "S"]) eqn:Hin; cbn [negb].
  { case_decide as HF; [|done]. by injection HF as ->. }
  rewrite seating_getitem_eq, Hc.
  destruct (String.eqb_spec c "F") as [->|Hne]; cbn [negb].
  2: { case_decide; [congruence | done]. }
  case_decide; [|done].
  unfold mret, M_ret, ret. cbv beta iota.
  rewrite generate_unique_booking_reference_eq.
  destruct (first_fresh (bookings st) (rng st)) as [[ref rest]|]; [|done].
  rewrite seating_setitem_eq.
  destruct (write_at (set_rng rest st) row column ref) as [st1|]; [|done].
  done.
Qed.

Lemma free_seat_eq row column st :
  free_seat row column st =
  match cell_at st row column with
  | None => Done AlreadyFreeOrInvalid st
  | Some c =>
      if py_in c ["X"; "S"] || String.eqb c "F" then Done AlreadyFreeOrInvalid st
      else if decide (c ∈ dom (bookings st)) then
        match write_at (set_bookings (delete c (bookings st)) st) row column "F" with
        | Some st' => Done Freed st'
        | None => Raised IndexError (set_bookings (delete c (bookings st)) st)
        end
      else Done BookingNotFound st
  end.
Proof.
  unfold free_seat, mbind, M_bind, bind. rewrite is_seat_valid_eq.
  destruct (cell_at st row column) as [c|] eqn:Hc; simpl; [|done].
  destruct (py_in c ["X"; "S"]) eqn:Hin; simpl; [done|].
  rewrite seating_getitem_eq, Hc. simpl.
  destruct (String.eqb c "F"); simpl; [done|].
  rewrite seating_getitem_eq, Hc. simpl.
  destruct (decide (c ∈ dom (bookings st))) as [Hd|Hd]; [|done].
  unfold bookings_delitem, mbind, M_bind, bind, get.
  apply elem_of_dom in Hd as [b Hb]. rewrite Hb. simpl.
  rewrite seating_setitem_eq.
  by destruct (write_at (set_bookings (delete c (bookings st)) st) row column "F").
Qed.

Lemma book_seat_refused row column passport first last st :
  cell_at st row column ≠ Some "F" →
  book_seat row column passport first last st = Done SeatUnavailable st.
Proof. intros H. rewrite book_seat_eq. by rewrite decide_False. Qed.

Lemma book_seat_Free row column passport first last st ref rest :
  cell_at st row column = Some "F" →
  first_fresh (bookings st) (rng st) = Some (ref, rest) →
  ∃ st1,
    write_at (set_rng rest st) row column ref = Some st1 ∧
    cell_at st1 row column = Some ref ∧
    book_seat row column passport first last st =
    Done (Booked ref)
         (set_bookings (<[ref := Booking passport first last row column]> (bookings st)) st1).
Proof.
  intros Hc Hf. rewrite book_seat_eq, decide_True, Hf by done.
  destruct (write_at_cell (set_rng rest st) row column "F" ref Hc)
    as (st1 & -> & Hc1 & _ & -> & _).
  by exists st1.
Qed.

Lemma free_seat_refused row column st :
  match cell_at st row column with
  | None => True
  | Some c => c = "F" ∨ c = "X" ∨ c = "S"
  end →
  free_seat row column st = Done AlreadyFreeOrInvalid st.
Proof.
  rewrite free_seat_eq. destruct (cell_at st row column) as [c|]; [|done].
  by intros [-> | [-> | ->]].
Qed.

Lemma free_seat_Booked row column st ref :
  cell_at st row column = Some ref → is_reference ref → ref ∈ dom (bookings st) →
  ∃ st',
    write_at (set_bookings (delete ref (bookings st)) st) row column "F" = Some st' ∧
    cell_at st' row column = Some "F" ∧
    free_seat row column st = Done Freed st'.
Proof.
  intros Hc Hr Hd. rewrite free_seat_eq, Hc.
  rewrite is_reference_py_in, is_reference_eqb_F by done. simpl.
  rewrite decide_True by done.
  destruct (write_at_cell (set_bookings (delete ref (bookings st)) st) row column ref "F" Hc)
    as (st' & -> & Hc' & _).
  by exists st'.
Qed.

Lemma free_seat_not_found row column st ref :
  cell_at st row column = Some ref → is_reference ref → ref ∉ dom (bookings st) →
  free_seat row column st = Done BookingNotFound st.
Proof.
  intros Hc Hr Hd. rewrite free_seat_eq, Hc.
  rewrite is_reference_py_in, is_reference_eqb_F by done. simpl.
  by rewrite decide_False.
Qed.

Lemma write_at_frame st row column v st' :
  write_at st row column v = Some st' →
  seating st' = seating st ∧ bookings st' = bookings st ∧ rng st' = rng st.
Proof.
  unfold write_at. destruct (item (seating st) row) as [l|]; simpl; [|done].
  destruct (py_index (length (deref st l)) column) as [k|]; simpl; [|done].
  by intros [= <-].
Qed.

(** ** Inversion of the two mutators *)

Lemma book_seat_inv row column passport first last st res st' :
  book_seat row column passport first last st = Done res st' →
  (res = SeatUnavailable ∧ st' = st ∧ cell_at st row column ≠ Some "F") ∨
  (∃ ref rest st1,
     res = Booked ref ∧ cell_at st row column = Some "F" ∧
     first_fresh (bookings st) (rng st) = Some (ref, rest) ∧
     write_at (set_rng rest st) row column ref = Some st1 ∧
     st' = set_bookings (<[ref := Booking passport first last row column]> (bookings st)) st1).
Proof.
  rewrite book_seat_eq. case_decide as Hc.
  - destruct (first_fresh (bookings st) (rng st)) as [[ref rest]|] eqn:Hf; [|done].
    destruct (write_at (set_rng rest st) row column ref) as [st1|] eqn:Hw; [|done].
    intros [= <- <-]. right. exists ref, rest, st1. split_and!; try done.
    by apply write_at_frame in Hw as (_ & -> & _).
  - intros [= <- <-]. by left.
Qed.

Lemma book_seat_final row column passport first last st st' :
  final_state (book_seat row column passport first last st) = Some st' →
  ∃ res, book_seat row column passport first last st = Done res st'.
Proof.
  destruct (book_seat row column passport first last st) as [res st1|e st1|] eqn:Hb;
    simpl; [intros [= <-]; eauto | | done].
  rewrite book_seat_eq in Hb. case_decide as Hc; [|done].
  destruct (first_fresh (bookings st) (rng st)) as [[ref rest]|]; [|done].
  destruct (write_at_cell (set_rng rest st) row column "F" ref Hc) as (st2 & Hw & _).
  by rewrite Hw in Hb.
Qed.

Lemma free_seat_inv row column st res st' :
  free_seat row column st = Done res st' →
  (res ≠ Freed ∧ st' = st) ∨
  (∃ ref,
     res = Freed ∧ cell_at st row column = Some ref ∧ is_reference ref ∧
     ref ∈ dom (bookings st) ∧
     write_at (set_bookings (delete ref (bookings st)) st) row column "F" = Some st').
Proof.
  rewrite free_seat_eq. destruct (cell_at st row column) as [c|] eqn:Hc.
  2: { intros [= <- <-]. by left. }
  destruct (py_in c ["X"; "S"]) eqn:Hin; simpl.
  { intros [= <- <-]. by left. }
  destruct (String.eqb_spec c "F") as [->|HF].
  { intros [= <- <-]. by left. }
  case_decide as Hd.
  2: { intros [= <- <-]. by left. }
  destruct (write_at _ row column "F") as [st1|] eqn:Hw; [|done].
  intros [= <- <-]. right. exists c. split_and!; try done.
  unfold py_in in Hin. simpl in Hin. rewrite orb_false_r in Hin.
  apply orb_false_elim in Hin as [HX HS]. apply String.eqb_neq in HX, HS. done.
Qed.

Lemma free_seat_final row column st st' :
  final_state (free_seat row column st) = Some st' →
  ∃ res, free_seat row column st = Done res st'.
Proof.
  destruct (free_seat row column st) as [res st1|e st1|] eqn:Hb;
    simpl; [intros [= <-]; eauto | | done].
  rewrite free_seat_eq in Hb. destruct (cell_at st row column) as [c|] eqn:Hc; [|done].
  destruct (py_in c ["X"; "S"] || String.eqb c "F"); [done|].
  case_decide; [|done].
  destruct (write_at_cell (set_bookings (delete c (bookings st)) st) row column c "F" Hc)
    as (st2 & Hw & _).
  by rewrite Hw in Hb.
Qed.

Lemma check_availability_final row column st :
  final_state (check_availability row column st) = Some st.
Proof.
  rewrite check_availability_eq. destruct (cell_at st row column) as [c|]; [|done].
  destruct (py_in c ["X"; "S"]); [done|]. destruct (String.eqb c "F"); [done|].
  by destruct (bookings st !! c).
Qed.

(** * The claims *)

(** ** Validation never raises *)

(** C9. For every pair of integer coordinates, negative or beyond the grid
    included, and in every state, [is_seat_valid(row, column)] returns a
    boolean: it does not raise, and it leaves the state as it was. *)
Theorem is_seat_valid_returns_bool (st : state) (row column : Z) :
  ∃ b : bool, is_seat_valid (Some row) (Some column) None st = Done b st.
Proof. rewrite is_seat_valid_eq. eauto. Qed.

(** ** Releasing a seat *)

(** C7. When the cell holds a reference that is not a key of the ledger,
    [free_seat] reports that the booking reference was not found and
    changes nothing: the cell keeps the reference. *)
Theorem free_seat_missing_booking (st : state) (r c : nat) (ref : string) :
  holds st r c ref →
  ref ∉ dom (bookings st) →
  free_seat (Z.of_nat r) (Z.of_nat c) st = Done BookingNotFound st.
Proof.
  intros [Hc Hr] Hd. apply free_seat_not_found with ref; [|done..].
  by rewrite cell_at_of_nat.
Qed.

Lemma free_seat_missing_booking_witness :
  free_seat (Z.of_nat 0) (Z.of_nat 0) ghost_state = Done BookingNotFound ghost_state.
Proof.
  apply (free_seat_missing_booking ghost_state 0 0 "GHOSTREF").
  - split; [reflexivity | by repeat split].
  - vm_compute. inversion 1.
Defined.

(** C5. When the cell holds a reference that is a key of the ledger,
    [free_seat] succeeds; in the state it leaves the ledger has lost that
    key and nothing else, the cell is ['F'], and [check_availability] on
    the same seat answers that the seat is available. *)
Theorem free_seat_releases (st : state) (r c : nat) (ref : string) :
  holds st r c ref →
  ref ∈ dom (bookings st) →
  ∃ st',
    free_seat (Z.of_nat r) (Z.of_nat c) st = Done Freed st' ∧
    bookings st' = delete ref (bookings st) ∧
    cell st' r c = Some "F" ∧
    check_availability (Z.of_nat r) (Z.of_nat c) st' = Done Available st'.
Proof.
  intros [Hc Hr] Hd. rewrite <- cell_at_of_nat in Hc.
  destruct (free_seat_Booked _ _ _ _ Hc Hr Hd) as (st' & Hw & Hc' & Hfree).
  exists st'. split_and!; [done | | by rewrite <- cell_at_of_nat |].
  - by apply write_at_frame in Hw as (_ & -> & _).
  - by rewrite check_availability_eq, Hc'.
Qed.

Lemma free_seat_releases_witness :
  ∃ st',
    free_seat (Z.of_nat 0) (Z.of_nat 0) one_booking = Done Freed st' ∧
    bookings st' = delete "ABCDEFGH" (bookings one_booking) ∧
    cell st' 0 0 = Some "F" ∧
    check_availability (Z.of_nat 0) (Z.of_nat 0) st' = Done Available st'.
Proof.
  apply (free_seat_releases one_booking 0 0 "ABCDEFGH").
  - split; [reflexivity | by repeat split].
  - apply elem_of_dom. eexists. reflexivity.
Defined.

(** ** Booking a seat *)

(** C4. For a seat of the grid whose cell is ['F'] and any passenger
    strings, [book_seat] succeeds as soon as one of the draws to come is
    not a key of the ledger, and [check_availability] on the same
    coordinates then answers that the seat is taken, with the reference
    and exactly the passport number and names that were given. *)
Theorem book_seat_then_check (st : state) (r c : nat) (passport first last : string) :
  cell st r c = Some "F" →
  Exists (fun d => reference_of_draw d ∉ dom (bookings st)) (rng st) →
  ∃ ref st',
    book_seat (Z.of_nat r) (Z.of_nat c) passport first last st = Done (Booked ref) st' ∧
    check_availability (Z.of_nat r) (Z.of_nat c) st' = Done (Taken ref passport first last) st'.
Proof.
  intros Hc [[ref rest] Hf]%first_fresh_Exists. rewrite <- cell_at_of_nat in Hc.
  destruct (book_seat_Free _ _ passport first last _ _ _ Hc Hf) as (st1 & Hw & Hc1 & Hbook).
  eexists ref, _. split; [exact Hbook|].
  assert (is_reference ref) as Hr.
  { apply first_fresh_Some in Hf as (_ & d & _ & ->).
    apply length8_is_reference, reference_of_draw_length. }
  rewrite check_availability_eq.
  change (cell_at (set_bookings _ st1)) with (cell_at st1). rewrite Hc1.
  rewrite is_reference_py_in, is_reference_eqb_F by done. simpl.
  by rewrite lookup_insert_eq.
Qed.

Lemma book_seat_then_check_witness :
  ∃ ref st',
    book_seat (Z.of_nat 0) (Z.of_nat 0) "P123" "Ann" "Lee" new_system = Done (Booked ref) st' ∧
    check_availability (Z.of_nat 0) (Z.of_nat 0) st' = Done (Taken ref "P123" "Ann" "Lee") st'.
Proof.
  apply (book_seat_then_check new_system 0 0 "P123" "Ann" "Lee").
  - reflexivity.
  - apply Exists_cons_hd. vm_compute. inversion 1.
Defined.

(** ** References *)

Lemma book_all_fresh reqs : ∀ st refs st',
  book_all reqs st = Some (refs, st') →
  NoDup refs ∧ Forall well_formed_reference refs ∧
  Forall (fun ref => ref ∉ dom (bookings st)) refs.
Proof.
  induction reqs as [|[[[[row column] passport] first] last] reqs IH]; intros st refs st'.
  { intros [= <- <-]. split_and!; constructor. }
  cbn [book_all].
  destruct (book_seat row column passport first last st) as [res st1| |] eqn:Hb; [|done..].
  apply book_seat_inv in Hb as [(-> & -> & _) | (ref & rest & st2 & -> & _ & Hf & _ & ->)].
  { apply IH. }
  destruct (book_all reqs _) as [[refs1 st3]|] eqn:Hall; [|done].
  simpl. intros [= <- <-].
  apply IH in Hall as (Hnd & Hwf & Hfresh). cbn [set_bookings bookings] in Hfresh.
  apply first_fresh_Some in Hf as (Hnew & d & _ & ->).
  split_and!.
  - constructor; [|done]. intros Hin.
    eapply Forall_forall in Hfresh; [|exact Hin].
    apply Hfresh. rewrite dom_insert_L. by apply elem_of_union_l, elem_of_singleton.
  - constructor; [|done].
    split; [apply reference_of_draw_length | apply reference_of_draw_alphabet].
  - constructor; [done|].
    eapply Forall_impl; [exact Hfresh|]. intros ref Href Hin. apply Href.
    rewrite dom_insert_L. by apply elem_of_union_r.
Qed.

(** C8. A reference that [generate_unique_booking_reference] returns has
    eight characters, each from the alphabet of upper-case letters and
    digits, and is not a key of the ledger at the time of the call; so the
    references a sequence of bookings hands out, each recorded in the
    ledger by its booking, are pairwise distinct (and of that form). *)
Theorem generated_references_unique :
  (∀ st ref st',
     generate_unique_booking_reference st = Done ref st' →
     well_formed_reference ref ∧ ref ∉ dom (bookings st)) ∧
  (∀ reqs st refs st',
     book_all reqs st = Some (refs, st') →
     NoDup refs ∧ Forall well_formed_reference refs).
Proof.
  split.
  - intros st ref st'. rewrite generate_unique_booking_reference_eq.
    destruct (first_fresh (bookings st) (rng st)) as [[ref' rest]|] eqn:Hf; [|done].
    intros [= <- <-]. apply first_fresh_Some in Hf as (Hnew & d & _ & ->).
    split; [|done].
    split; [apply reference_of_draw_length | apply reference_of_draw_alphabet].
  - intros reqs st refs st' (Hnd & Hwf & _)%book_all_fresh. done.
Qed.

Lemma generated_references_unique_witness :
  (well_formed_reference "Z0123456" ∧ "Z0123456" ∉ dom (bookings one_booking)) ∧
  (NoDup ["ABCDEFGH"; "Z0123456"] ∧
   Forall well_formed_reference ["ABCDEFGH"; "Z0123456"]).
Proof.
  split.
  - apply (proj1 generated_references_unique one_booking "Z0123456"
                 (set_rng [] one_booking)).
    reflexivity.
  - apply (proj2 generated_references_unique
                 [(0, 0, "P123", "Ann", "Lee"); (3, 0, "P0", "Al", "Ile");
                  (1, 2, "P456", "Bob", "Ray")]
                 new_system ["ABCDEFGH"; "Z0123456"]
                 (after (book_seat 1 2 "P456" "Bob" "Ray") one_booking)).
    reflexivity.
Defined.

(** The alphabet is the upper-case letters and the digits. *)
Lemma alphabet_upper_or_digit ch : ch ∈ alphabet ↔ upper_or_digit ch = true.
Proof.
  split.
  - intros Hin. assert (Forall (fun ch => upper_or_digit ch = true) alphabet) as Hall.
    { unfold alphabet. simpl. repeat constructor. }
    eapply Forall_forall in Hall; eauto.
  - destruct ch as [[] [] [] [] [] [] [] []]; vm_compute; try discriminate; intros _;
      repeat (first [left; reflexivity | right]).
Qed.

(** ** Invariants of the reachable states *)

Section Invariant.
Variable P : state → Prop.
Hypothesis P_init : ∀ draws, P (init draws).
Hypothesis P_step : ∀ st o st', P st → step o st = Some st' → P st'.

Lemma reachable_invariant st : reachable st → P st.
Proof. induction 1; eauto. Qed.
End Invariant.

Lemma init_shape draws : shape (init draws).
Proof. repeat split. repeat constructor. Qed.

Lemma write_at_shape st row column v st' :
  shape st → write_at st row column v = Some st' → shape st'.
Proof.
  intros (Hseat & Hlen & Hrows). unfold write_at.
  destruct (item (seating st) row) as [l|]; simpl; [|done].
  destruct (py_index (length (deref st l)) column) as [k|]; simpl; [|done].
  intros [= <-]. unfold shape. simpl. rewrite length_insert. split_and!; [done..|].
  destruct (store st !! l) as [r|] eqn:Hl.
  - apply Forall_insert; [done|]. rewrite length_insert. unfold deref. rewrite Hl. simpl.
    by eapply Forall_lookup in Hrows.
  - rewrite list_insert_ge; [done|]. by apply lookup_ge_None.
Qed.

Lemma step_shape st o st' : shape st → step o st = Some st' → shape st'.
Proof.
  intros Hs. destruct o as [row column | row column passport first last | row column]; simpl.
  - rewrite check_availability_final. by intros [= <-].
  - intros [res Hb]%book_seat_final.
    apply book_seat_inv in Hb as [(_ & -> & _) | (ref & rest & st1 & _ & _ & _ & Hw & ->)];
      [done|].
    by apply (write_at_shape (set_rng rest st)) in Hw.
  - intros [res Hf]%free_seat_final.
    apply free_seat_inv in Hf as [(_ & ->) | (ref & _ & _ & _ & _ & Hw)]; [done|].
    by apply write_at_shape in Hw.
Qed.

Lemma reachable_shape st : reachable st → shape st.
Proof. apply reachable_invariant; eauto using init_shape, step_shape. Qed.

Lemma reachable_wf st : reachable st → wf st.
Proof.
  intros (Hseat & Hlen & _)%reachable_shape l Hl. apply lookup_lt_is_Some.
  rewrite Hseat in Hl. rewrite Hlen. unfold layout in Hl.
  repeat (apply elem_of_cons in Hl as [-> | Hl]; [lia|]). by apply elem_of_nil in Hl.
Qed.

(** Rows 5 and 6 of a grid of that shape show the same cells. *)
Lemma shape_shared_rows st c : shape st → cell st 5 c = cell st 6 c.
Proof. intros (Hseat & _). unfold cell. by rewrite Hseat. Qed.

(** ** The last two rows *)

(** C10. In every state the object can reach, entries 5 and 6 of
    [self.seating] denote one row object, so cells (5, c) and (6, c) are
    equal for every column c. In particular a successful booking of
    (5, c) makes [check_availability] on (6, c) answer that the seat is
    taken, with the same reference and passenger, and a successful
    [free_seat] on either coordinate leaves ['F'] in both. *)
Theorem last_rows_shared (st : state) :
  reachable st →
  (∃ l, seating st !! 5%nat = Some l ∧ seating st !! 6%nat = Some l) ∧
  (∀ c, cell st 5 c = cell st 6 c) ∧
  (∀ (c : nat) passport first last ref st',
     book_seat 5 (Z.of_nat c) passport first last st = Done (Booked ref) st' →
     check_availability 6 (Z.of_nat c) st' = Done (Taken ref passport first last) st') ∧
  (∀ (c : nat) st',
     free_seat 5 (Z.of_nat c) st = Done Freed st' ∨
     free_seat 6 (Z.of_nat c) st = Done Freed st' →
     cell st' 5 c = Some "F" ∧ cell st' 6 c = Some "F").
Proof.
  intros Hs%reachable_shape. split_and!.
  - destruct Hs as (-> & _). by exists 8%nat.
  - intros c. by apply shape_shared_rows.
  - intros c passport first last ref st' Hb.
    apply book_seat_inv in Hb as [([=] & _) | (ref' & rest & st1 & [= <-] & Hc & Hf & Hw & ->)].
    destruct (write_at_cell (set_rng rest st) 5 (Z.of_nat c) "F" ref Hc) as (st2 & Hw' & Hc2 & _).
    rewrite Hw in Hw'. injection Hw' as <-.
    assert (shape st1) as Hs1 by (by apply (write_at_shape (set_rng rest st)) in Hw).
    change 5 with (Z.of_nat 5) in Hc2. rewrite cell_at_of_nat, shape_shared_rows in Hc2 by done.
    rewrite check_availability_eq. change 6 with (Z.of_nat 6). rewrite cell_at_of_nat.
    change (cell (set_bookings _ st1)) with (cell st1). rewrite Hc2.
    assert (is_reference ref) as Hr.
    { apply first_fresh_Some in Hf as (_ & d & _ & ->).
      apply length8_is_reference, reference_of_draw_length. }
    rewrite is_reference_py_in, is_reference_eqb_F by done. simpl.
    by rewrite lookup_insert_eq.
  - intros c st' Hfree.
    assert (shape st' ∧ (cell st' 5 c = Some "F" ∨ cell st' 6 c = Some "F")) as [Hs' Hor].
    { destruct Hfree as [Hf | Hf];
        apply free_seat_inv in Hf as [([] & _) | (ref & _ & Hc & _ & _ & Hw)]; try done;
        (split; [by apply write_at_shape in Hw|]);
        destruct (write_at_cell (set_bookings (delete ref (bookings st)) st) _ _ ref "F" Hc)
          as (st2 & Hw' & Hc2 & _);
        rewrite Hw in Hw'; injection Hw' as <-.
      - left. change 5 with (Z.of_nat 5) in Hc2. by rewrite cell_at_of_nat in Hc2.
      - right. change 6 with (Z.of_nat 6) in Hc2. by rewrite cell_at_of_nat in Hc2. }
    pose proof (shape_shared_rows st' c Hs') as Heq.
    destruct Hor as [H5 | H6]; [by rewrite <- Heq | by rewrite Heq].
Qed.

Lemma last_rows_shared_witness :
  (∃ l, seating last_row_booking !! 5%nat = Some l ∧ seating last_row_booking !! 6%nat = Some l) ∧
  (∀ c, cell last_row_booking 5 c = cell last_row_booking 6 c) ∧
  (∀ (c : nat) passport first last ref st',
     book_seat 5 (Z.of_nat c) passport first last last_row_booking = Done (Booked ref) st' →
     check_availability 6 (Z.of_nat c) st' = Done (Taken ref passport first last) st') ∧
  (∀ (c : nat) st',
     free_seat 5 (Z.of_nat c) last_row_booking = Done Freed st' ∨
     free_seat 6 (Z.of_nat c) last_row_booking = Done Freed st' →
     cell st' 5 c = Some "F" ∧ cell st' 6 c = Some "F").
Proof.
  apply (last_rows_shared last_row_booking).
  apply (reachable_step new_system (Book 5 0 "P123" "Ann" "Lee")).
  - apply reachable_init.
  - reflexivity.
Defined.

(** The same on a run: seat (5, 0) is booked, seat (6, 0) shows the
    booking, and freeing (6, 0) frees (5, 0). *)
Example shared_rows_run :
  check_availability 6 0 last_row_booking
  = Done (Taken "ABCDEFGH" "P123" "Ann" "Lee") last_row_booking ∧
  cell (after (free_seat 6 0) last_row_booking) 5 0 = Some "F" ∧
  bookings (after (free_seat 6 0) last_row_booking) = ∅.
Proof. by split_and!. Qed.

(** ** One booking, two cells *)

(** C1 fails on the code. After [book_seat(5, 0, ...)] on a new object
    (a reachable state) the reference is held by cell (5, 0) and by cell
    (6, 0), because both entries of [self.seating] denote the row object
    that was written: the ledger invariant of the specification does not
    hold there. *)
Theorem shared_row_breaks_ledger_invariant :
  reachable last_row_booking ∧
  bookings last_row_booking !! "ABCDEFGH" = Some (Booking "P123" "Ann" "Lee" 5 0) ∧
  holds last_row_booking 5 0 "ABCDEFGH" ∧
  holds last_row_booking 6 0 "ABCDEFGH" ∧
  ¬ ledger_matches_grid last_row_booking.
Proof.
  assert (holds last_row_booking 5 0 "ABCDEFGH") as H5
    by (split; [reflexivity | by repeat split]).
  assert (holds last_row_booking 6 0 "ABCDEFGH") as H6
    by (split; [reflexivity | by repeat split]).
  split_and!; [|reflexivity|done..|].
  - apply (reachable_step new_system (Book 5 0 "P123" "Ann" "Lee"));
      [apply reachable_init | reflexivity].
  - intros Hinv. destruct (Hinv "ABCDEFGH") as [_ Huniq].
    destruct (Huniq _ _ _ _ H5 H6) as [[=] _].
Qed.

(** ** Negative coordinates *)

(** C2 fails on the code. [self.seating[-1][0]] is cell (6, 0), so on a
    new object [is_seat_valid(-1, 0)] returns [True] and
    [check_availability(-1, 0)] answers that the seat is available,
    although (-1, 0) is outside [0, 7) x [0, 4). *)
Theorem negative_row_is_valid :
  is_seat_valid (Some (-1)) (Some 0) None new_system = Done true new_system ∧
  check_availability (-1) 0 new_system = Done Available new_system.
Proof. split; reflexivity. Qed.

(** C3 fails on the code. [book_seat(-1, 0, ...)] on a new object does
    not refuse: it books cell (6, 0), writing the grid and the ledger. *)
Theorem negative_row_is_booked :
  ∃ st',
    book_seat (-1) 0 "P123" "Ann" "Lee" new_system = Done (Booked "ABCDEFGH") st' ∧
    cell new_system 6 0 = Some "F" ∧ cell st' 6 0 = Some "ABCDEFGH" ∧
    bookings new_system = ∅ ∧
    bookings st' = {[ "ABCDEFGH" := Booking "P123" "Ann" "Lee" (-1) 0 ]}.
Proof. eexists. split_and!; reflexivity. Qed.

(** C6 fails on the code. With seat (0, 0) booked, [free_seat(-7, 0)]
    does not refuse: it frees cell (0, 0) and deletes the booking. *)
Theorem negative_row_is_freed :
  ∃ st',
    free_seat (-7) 0 one_booking = Done Freed st' ∧
    cell one_booking 0 0 = Some "ABCDEFGH" ∧ cell st' 0 0 = Some "F" ∧
    bookings one_booking = {[ "ABCDEFGH" := Booking "P123" "Ann" "Lee" 0 0 ]} ∧
    bookings st' = ∅.
Proof. eexists. split_and!; reflexivity. Qed.

(** ** What the bounds check does cover *)

Lemma shape_deref_length st l : shape st → (length (deref st l) ≤ 4)%nat.
Proof.
  intros (_ & _ & Hrows). unfold deref. destruct (store st !! l) as [r|] eqn:Hl; simpl; [|lia].
  eapply Forall_lookup in Hrows; [|exact Hl]. simpl in Hrows. lia.
Qed.

Lemma item_out {A} (l : list A) i :
  i < - Z.of_nat (length l) ∨ Z.of_nat (length l) ≤ i → item l i = None.
Proof. intros H. unfold item. by rewrite py_index_out. Qed.

(** Outside [-7, 7) x [-4, 4) the lookup raises [IndexError]. *)
Lemma cell_at_out_of_range st row column :
  shape st →
  row < -7 ∨ 7 ≤ row ∨ column < -4 ∨ 4 ≤ column →
  cell_at st row column = None.
Proof.
  intros Hs Hout. unfold cell_at.
  destruct (item (seating st) row) as [l|] eqn:Hl; simpl; [|done].
  pose proof (shape_deref_length st l Hs).
  destruct Hout as [Hr | [Hr | [Hc | Hc]]]; [| |apply item_out; lia..];
    (rewrite item_out in Hl; [done|]); destruct Hs as (-> & _); simpl; lia.
Qed.

(** There every method refuses, and the state stays as it was. *)
Lemma out_of_range_refused st row column :
  shape st →
  row < -7 ∨ 7 ≤ row ∨ column < -4 ∨ 4 ≤ column →
  is_seat_valid (Some row) (Some column) None st = Done false st ∧
  check_availability row column st = Done Invalid st ∧
  (∀ passport first last,
     book_seat row column passport first last st = Done SeatUnavailable st) ∧
  free_seat row column st = Done AlreadyFreeOrInvalid st.
Proof.
  intros Hs Hout. pose proof (cell_at_out_of_range st row column Hs Hout) as Hc.
  split_and!.
  - by rewrite is_seat_valid_eq, Hc.
  - by rewrite check_availability_eq, Hc.
  - intros. apply book_seat_refused. by rewrite Hc.
  - apply free_seat_refused. by rewrite Hc.
Qed.

Lemma py_index_wrap (len : nat) i :
  - Z.of_nat len ≤ i < Z.of_nat len →
  py_index len i = Some (Z.to_nat (i mod Z.of_nat len)).
Proof.
  intros Hi. unfold py_index. destruct (Z.leb_spec 0 i) as [H0 | H0]; simpl.
  - replace (i <? Z.of_nat len) with true by (symmetry; apply Z.ltb_lt; lia).
    by rewrite Z.mod_small by lia.
  - replace (- Z.of_nat len <=? i) with true by (symmetry; apply Z.leb_le; lia).
    replace (i <? 0) with true by (symmetry; apply Z.ltb_lt; lia). simpl.
    do 2 f_equal. apply Z.mod_unique_pos with (-1); lia.
Qed.

Lemma item_wrap {A} (l : list A) i :
  - Z.of_nat (length l) ≤ i < Z.of_nat (length l) →
  item l i = l !! Z.to_nat (i mod Z.of_nat (length l)).
Proof. intros H. unfold item. by rewrite py_index_wrap. Qed.

(** Inside [-7, 7) x [-4, 4) the lookup reads the cell the indices denote
    modulo the extent: a negative index counts from the end. *)
Lemma cell_at_wrap st row column :
  shape st → -7 ≤ row < 7 → -4 ≤ column < 4 →
  cell_at st row column = cell st (Z.to_nat (row mod 7)) (Z.to_nat (column mod 4)).
Proof.
  intros Hs Hr Hc. unfold cell_at, cell.
  pose proof Hs as (Hseat & _ & Hrows).
  rewrite item_wrap by (rewrite Hseat; simpl; lia).
  replace (Z.of_nat (length (seating st))) with 7 by (by rewrite Hseat).
  destruct (seating st !! Z.to_nat (row mod 7)) as [l|]; simpl; [|done].
  unfold deref. destruct (store st !! l) as [r|] eqn:Hl; simpl.
  - eapply Forall_lookup in Hrows; [|exact Hl]. simpl in Hrows.
    rewrite item_wrap by lia. by rewrite Hrows.
  - rewrite item_out by (simpl; lia). by rewrite lookup_nil.
Qed.

(** ** The ledger invariant the code keeps *)

Lemma cell_slot st r c : cell st r c = l ← seating st !! r; slot st l c.
Proof.
  unfold cell, slot, deref. destruct (seating st !! r) as [l|]; simpl; [|done].
  destruct (store st !! l); simpl; [done | apply lookup_nil].
Qed.

Lemma item_elem_of {A} (l : list A) i x : item l i = Some x → x ∈ l.
Proof.
  unfold item. destruct (py_index (length l) i) as [k|]; simpl; [|done].
  apply list_elem_of_lookup_2.
Qed.

(** A write changes one cell of one row object. *)
Lemma write_at_slot st row column c v st' :
  cell_at st row column = Some c →
  write_at st row column v = Some st' →
  ∃ l k,
    l ∈ seating st ∧ slot st l k = Some c ∧ slot st' l k = Some v ∧
    (∀ l' k', l' ≠ l ∨ k' ≠ k → slot st' l' k' = slot st l' k') ∧
    seating st' = seating st.
Proof.
  intros (l & k & Hl & Hs & Hk & Hc)%cell_at_inv. unfold write_at.
  rewrite Hl. simpl. rewrite Hk. simpl. intros [= <-].
  assert (l < length (store st))%nat as Hlt by (by eapply lookup_lt_Some).
  exists l, k. unfold slot. simpl. split_and!; [by eapply item_elem_of | | | | done].
  - by rewrite Hs.
  - rewrite list_lookup_insert_eq by done. simpl.
    apply list_lookup_insert_eq. by eapply lookup_lt_Some.
  - intros l' k' Hne. destruct (decide (l' = l)) as [-> | Hll].
    + destruct Hne as [? | Hk']; [done|].
      rewrite list_lookup_insert_eq, Hs by done. simpl.
      by apply list_lookup_insert_ne.
    + by rewrite list_lookup_insert_ne.
Qed.

Lemma init_unused draws l k ref : ¬ used (init draws) l k ref.
Proof.
  intros (Hl & Hs & HF & HX & HS). unfold init, slot in *. simpl in *.
  repeat (apply elem_of_cons in Hl as [-> | Hl];
          [ simpl in Hs;
            repeat (destruct k as [|k]; simpl in Hs; [congruence|]); done |]).
  by apply elem_of_nil in Hl.
Qed.

Lemma init_ledger draws : ledger_matches_store (init draws).
Proof.
  split.
  - intros ref. split.
    + intros Hd. unfold init in Hd. simpl in Hd. by rewrite dom_empty_L in Hd.
    + intros (l & k & Hu). by apply init_unused in Hu.
  - intros ref l k l' k' Hu. by apply init_unused in Hu.
Qed.

Lemma book_seat_ledger row column passport first last st ref st' :
  ledger_matches_store st →
  book_seat row column passport first last st = Done (Booked ref) st' →
  ledger_matches_store st'.
Proof.
  intros [Hdom Huniq] Hb.
  apply book_seat_inv in Hb as [([=] & _) | (ref' & rest & st1 & [= <-] & Hc & Hf & Hw & ->)].
  apply first_fresh_Some in Hf as (Hnew & d & _ & Hd).
  assert (is_reference ref) as Hr
    by (subst ref; apply length8_is_reference, reference_of_draw_length).
  destruct (write_at_slot (set_rng rest st) _ _ _ _ _ Hc Hw)
    as (l & k & Hl & HF & Hnewslot & Hother & Hseat).
  change (seating (set_rng rest st)) with (seating st) in *.
  change (slot (set_rng rest st)) with (slot st) in *.
  assert (∀ l' k' x,
            used (set_bookings (<[ref := Booking passport first last row column]> (bookings st)) st1)
                 l' k' x ↔
            (l' = l ∧ k' = k ∧ x = ref) ∨ used st l' k' x) as Hused.
  { intros l' k' x. unfold used.
    change (seating (set_bookings _ st1)) with (seating st1).
    change (slot (set_bookings _ st1)) with (slot st1).
    rewrite Hseat. split.
    - intros (Hl' & Hs & Hx).
      destruct (decide (l' = l ∧ k' = k)) as [[-> ->] | Hne].
      + left. rewrite Hnewslot in Hs. by injection Hs as <-.
      + right. rewrite Hother in Hs; [done|].
        destruct (decide (l' = l)), (decide (k' = k)); tauto.
    - intros [(-> & -> & ->) | (Hl' & Hs & Hx)]; [done|].
      split_and!; [done| |done]. rewrite Hother; [done|].
      destruct (decide (l' = l)) as [-> |]; [|by left].
      destruct (decide (k' = k)) as [-> |]; [|by right].
      rewrite HF in Hs. injection Hs as <-. by destruct Hx as [? _]. }
  split.
  - intros x. cbn [bookings set_bookings]. rewrite dom_insert_L, elem_of_union, elem_of_singleton.
    rewrite Hdom. split.
    + intros [-> | (l' & k' & Hu)].
      * exists l, k. apply Hused. by left.
      * exists l', k'. apply Hused. by right.
    + intros (l' & k' & [(_ & _ & ->) | Hu]%Hused); [by left | right; eauto].
  - intros x l1 k1 l2 k2 [(-> & -> & ->) | Hu1]%Hused [(-> & -> & Hx) | Hu2]%Hused.
    + done.
    + exfalso. apply Hnew, Hdom. eauto.
    + subst x. exfalso. apply Hnew, Hdom. eauto.
    + by eapply Huniq.
Qed.

Lemma free_seat_ledger row column st st' :
  ledger_matches_store st →
  free_seat row column st = Done Freed st' →
  ledger_matches_store st'.
Proof.
  intros [Hdom Huniq] Hf.
  apply free_seat_inv in Hf as [([] & _) | (ref & _ & Hc & Hr & Hd & Hw)]; [done|].
  destruct (write_at_slot (set_bookings (delete ref (bookings st)) st) _ _ _ _ _ Hc Hw)
    as (l & k & Hl & Href & Hnewslot & Hother & Hseat).
  change (seating (set_bookings _ st)) with (seating st) in *.
  change (slot (set_bookings (delete ref (bookings st)) st)) with (slot st) in *.
  assert (used st l k ref) as Hu0 by done.
  assert (∀ l' k' x, used st' l' k' x ↔ used st l' k' x ∧ (l' ≠ l ∨ k' ≠ k)) as Hused.
  { intros l' k' x. unfold used. rewrite Hseat. split.
    - intros (Hl' & Hs & Hx).
      destruct (decide (l' = l ∧ k' = k)) as [[-> ->] | Hne].
      + rewrite Hnewslot in Hs. injection Hs as <-. by destruct Hx as [? _].
      + assert (l' ≠ l ∨ k' ≠ k) as Hne'
          by (destruct (decide (l' = l)), (decide (k' = k)); tauto).
        by rewrite Hother in Hs.
    - intros [(Hl' & Hs & Hx) Hne]. by rewrite Hother. }
  assert (bookings st' = delete ref (bookings st)) as Hbk
    by (by apply write_at_frame in Hw as (_ & -> & _)).
  split.
  - intros x. rewrite Hbk, dom_delete_L, elem_of_difference, elem_of_singleton, Hdom. split.
    + intros [(l' & k' & Hu) Hx]. exists l', k'. apply Hused. split; [done|].
      destruct (decide (l' = l)) as [-> |]; [|by left].
      destruct (decide (k' = k)) as [-> |]; [|by right].
      destruct Hu as (_ & Hs & _). rewrite Href in Hs. by injection Hs as ->.
    + intros (l' & k' & [Hu Hne]%Hused). split; [eauto|]. intros ->.
      destruct (Huniq _ _ _ _ _ Hu Hu0) as [-> ->]. by destruct Hne.
  - intros x l1 k1 l2 k2 [Hu1 _]%Hused [Hu2 _]%Hused. by eapply Huniq.
Qed.

Lemma step_ledger st o st' :
  ledger_matches_store st → step o st = Some st' → ledger_matches_store st'.
Proof.
  intros Hinv. destruct o as [row column | row column passport first last | row column]; simpl.
  - rewrite check_availability_final. by intros [= <-].
  - intros [[|ref] Hb]%book_seat_final.
    + by apply book_seat_inv in Hb as [(_ & -> & _) | (? & ? & ? & [=] & _)].
    + by eapply book_seat_ledger.
  - intros [res Hf]%free_seat_final.
    destruct res; [|by eapply free_seat_ledger|];
      by apply free_seat_inv in Hf as [(_ & ->) | (? & [=] & _)].
Qed.

Lemma reachable_ledger st : reachable st → ledger_matches_store st.
Proof. apply reachable_invariant; eauto using init_ledger, step_ledger. Qed.

Lemma holds_used st r c ref :
  holds st r c ref ↔ ∃ l, seating st !! r = Some l ∧ used st l c ref.
Proof.
  unfold holds, used. rewrite cell_slot. split.
  - intros [Hc Hr]. destruct (seating st !! r) as [l|] eqn:Hl; simpl in Hc; [|done].
    exists l. split_and!; [done | by eapply list_elem_of_lookup_2 | done..].
  - intros (l & Hl & _ & Hs & Hr). by rewrite Hl.
Qed.

(** Only entries 5 and 6 of the grid denote the same row object. *)
Lemma layout_alias (r r' : nat) l :
  layout !! r = Some l → layout !! r' = Some l →
  r = r' ∨ (r = 5 ∧ r' = 6)%nat ∨ (r = 6 ∧ r' = 5)%nat.
Proof.
  unfold layout.
  destruct r as [|[|[|[|[|[|[|r]]]]]]]; destruct r' as [|[|[|[|[|[|[|r']]]]]]];
    simpl; intros H1 H2; simplify_eq; auto.
Qed.

(** What is left of the ledger invariant of the specification: in every
    reachable state the keys of the ledger are the references the grid
    shows, and two cells that hold one reference are in the same column
    and in the same row, or else in rows 5 and 6. *)
Theorem reachable_ledger_matches_grid (st : state) (ref : string) :
  reachable st →
  (ref ∈ dom (bookings st) ↔ ∃ r c, holds st r c ref) ∧
  (∀ r c r' c',
     holds st r c ref → holds st r' c' ref →
     c = c' ∧ (r = r' ∨ (r = 5 ∧ r' = 6) ∨ (r = 6 ∧ r' = 5))%nat).
Proof.
  intros Hreach. pose proof (reachable_ledger st Hreach) as [Hdom Huniq].
  pose proof (reachable_shape st Hreach) as (Hseat & _). split.
  - rewrite Hdom. split.
    + intros (l & k & Hu). pose proof Hu as (Hl & _).
      apply list_elem_of_lookup_1 in Hl as [r Hr].
      exists r, k. apply holds_used. eauto.
    + intros (r & c & (l & _ & Hu)%holds_used). eauto.
  - intros r c r' c' (l & Hl & Hu)%holds_used (l' & Hl' & Hu')%holds_used.
    destruct (Huniq _ _ _ _ _ Hu Hu') as [<- <-]. split; [done|].
    rewrite Hseat in Hl, Hl'. by eapply layout_alias.
Qed.

Lemma reachable_ledger_matches_grid_witness :
  ("ABCDEFGH" ∈ dom (bookings last_row_booking) ↔
   ∃ r c, holds last_row_booking r c "ABCDEFGH") ∧
  (∀ r c r' c',
     holds last_row_booking r c "ABCDEFGH" → holds last_row_booking r' c' "ABCDEFGH" →
     c = c' ∧ (r = r' ∨ (r = 5 ∧ r' = 6) ∨ (r = 6 ∧ r' = 5))%nat).
Proof.
  apply (reachable_ledger_matches_grid last_row_booking "ABCDEFGH").
  apply (reachable_step new_system (Book 5 0 "P123" "Ann" "Lee"));
    [apply reachable_init | reflexivity].
Defined.

(** ** What validation computes on a reachable state *)

(** In a reachable state the lookup of [is_seat_valid] fails exactly
    outside [-7, 7) x [-4, 4): there all four methods refuse and leave the
    state as it was. Inside, a negative coordinate is read from the end,
    and the answer is that of the cell so denoted. *)
Theorem validation_on_reachable (st : state) (row column : Z) :
  reachable st →
  (row < -7 ∨ 7 ≤ row ∨ column < -4 ∨ 4 ≤ column →
   is_seat_valid (Some row) (Some column) None st = Done false st ∧
   check_availability row column st = Done Invalid st ∧
   (∀ passport first last,
      book_seat row column passport first last st = Done SeatUnavailable st) ∧
   free_seat row column st = Done AlreadyFreeOrInvalid st) ∧
  (-7 ≤ row < 7 → -4 ≤ column < 4 →
   ∃ c, cell st (Z.to_nat (row mod 7)) (Z.to_nat (column mod 4)) = Some c ∧
        is_seat_valid (Some row) (Some column) None st
        = Done (negb (py_in c ["X"; "S"])) st).
Proof.
  intros Hs%reachable_shape. split; [by apply out_of_range_refused|].
  intros Hr Hc. rewrite is_seat_valid_eq, cell_at_wrap by done.
  destruct (cell st _ _) as [c|] eqn:Hcell; [eauto|]. exfalso.
  pose proof Hs as (Hseat & Hlen & Hrows).
  unfold cell in Hcell. rewrite Hseat in Hcell.
  pose proof (Z.mod_pos_bound row 7 eq_refl) as Hr7.
  pose proof (Z.mod_pos_bound column 4 eq_refl) as Hc4.
  destruct (layout !! Z.to_nat (row mod 7)) as [l|] eqn:Hl;
    cbn [mbind option_bind] in Hcell.
  - assert (l < 9)%nat as Hl9.
    { apply list_elem_of_lookup_2 in Hl. unfold layout in Hl.
      repeat (apply elem_of_cons in Hl as [-> | Hl]; [lia|]). by apply elem_of_nil in Hl. }
    destruct (lookup_lt_is_Some_2 (store st) l) as [r Hrow]; [lia|].
    unfold deref, loc in *. rewrite Hrow in Hcell. cbn [default from_option id] in Hcell.
    eapply Forall_lookup in Hrows; [|exact Hrow]. simpl in Hrows.
    apply lookup_ge_None in Hcell. lia.
  - apply lookup_ge_None in Hl. simpl in Hl. lia.
Qed.

Lemma validation_on_reachable_witness :
  (-1 < -7 ∨ 7 ≤ -1 ∨ 9 < -4 ∨ 4 ≤ 9 →
   is_seat_valid (Some (-1)) (Some 9) None one_booking = Done false one_booking ∧
   check_availability (-1) 9 one_booking = Done Invalid one_booking ∧
   (∀ passport first last,
      book_seat (-1) 9 passport first last one_booking = Done SeatUnavailable one_booking) ∧
   free_seat (-1) 9 one_booking = Done AlreadyFreeOrInvalid one_booking) ∧
  (-7 ≤ -1 < 7 → -4 ≤ 9 < 4 →
   ∃ c, cell one_booking (Z.to_nat (-1 mod 7)) (Z.to_nat (9 mod 4)) = Some c ∧
        is_seat_valid (Some (-1)) (Some 9) None one_booking
        = Done (negb (py_in c ["X"; "S"])) one_booking).
Proof.
  apply (validation_on_reachable one_booking (-1) 9).
  apply (reachable_step new_system (Book 0 0 "P123" "Ann" "Lee"));
    [apply reachable_init | reflexivity].
Defined.

(** * Further properties of the engine *)

(** ** One write, one cell *)

Lemma deref_slot st l k : deref st l !! k = slot st l k.
Proof.
  unfold deref, slot. destruct (store st !! l); simpl; [done | apply lookup_nil].
Qed.

Lemma cell_at_slot_of st row column :
  cell_at st row column = '(l, k) ← slot_of st row column; slot st l k.
Proof.
  unfold cell_at, slot_of. destruct (item (seating st) row) as [l|]; simpl; [|done].
  unfold item. destruct (py_index (length (deref st l)) column) as [k|]; simpl; [|done].
  apply deref_slot.
Qed.

(** What a write does: the cell the indices denote gets the value, every
    other cell of every row object keeps its own, and no row changes its
    length. *)
Lemma write_at_spec st row column c v st' :
  cell_at st row column = Some c →
  write_at st row column v = Some st' →
  ∃ l k,
    slot_of st row column = Some (l, k) ∧
    slot st l k = Some c ∧ slot st' l k = Some v ∧
    (∀ l' k', l' ≠ l ∨ k' ≠ k → slot st' l' k' = slot st l' k') ∧
    (∀ row' column', slot_of st' row' column' = slot_of st row' column') ∧
    seating st' = seating st ∧ bookings st' = bookings st ∧ rng st' = rng st.
Proof.
  intros (l & k & Hl & Hs & Hk & Hc)%cell_at_inv. unfold write_at.
  rewrite Hl. simpl. rewrite Hk. simpl. intros [= <-].
  assert (l < length (store st))%nat as Hlt by (by eapply lookup_lt_Some).
  assert (∀ l', length (deref (set_store (<[l := <[k := v]> (deref st l)]> (store st)) st) l')
                = length (deref st l')) as Hlen.
  { intros l'. unfold deref at 1. simpl. destruct (decide (l' = l)) as [-> | Hne].
    - rewrite list_lookup_insert_eq by done. simpl. apply length_insert.
    - by rewrite list_lookup_insert_ne. }
  exists l, k. split_and!; try done.
  - unfold slot_of. rewrite Hl. simpl. by rewrite Hk.
  - by rewrite <- deref_slot.
  - unfold slot. simpl. rewrite list_lookup_insert_eq by done. simpl.
    apply list_lookup_insert_eq. by eapply lookup_lt_Some.
  - intros l' k' Hne. unfold slot. simpl. destruct (decide (l' = l)) as [-> | Hll].
    + destruct Hne as [? | Hk']; [done|].
      rewrite list_lookup_insert_eq, Hs by done. simpl.
      by apply list_lookup_insert_ne.
    + by rewrite list_lookup_insert_ne.
  - intros row' column'. unfold slot_of. simpl.
    destruct (item (seating st) row') as [l'|]; simpl; [|done]. by rewrite Hlen.
Qed.

(** Every other cell reads as before; the written one reads the value. *)
Lemma write_at_cell_at st row column c v st' row' column' :
  cell_at st row column = Some c →
  write_at st row column v = Some st' →
  cell_at st' row' column' =
  if decide (slot_of st row' column' = slot_of st row column) then Some v
  else cell_at st row' column'.
Proof.
  intros Hc Hw.
  destruct (write_at_spec _ _ _ _ _ _ Hc Hw)
    as (l & k & Hso & Hold & Hnew & Hother & Hsame & _).
  rewrite !cell_at_slot_of, Hsame, Hso.
  destruct (slot_of st row' column') as [[l' k']|]; simpl.
  - case_decide as Heq; [by injection Heq as -> ->|].
    apply Hother. destruct (decide (l' = l)) as [-> |]; [|by left].
    destruct (decide (k' = k)) as [-> |]; [done | by right].
  - try case_decide; done.
Qed.

Lemma write_at_cell_other st row column c v st' row' column' c' :
  cell_at st row column = Some c →
  write_at st row column v = Some st' →
  cell_at st row' column' = Some c' → c' ≠ c →
  cell_at st' row' column' = Some c'.
Proof.
  intros Hc Hw Hc' Hne. rewrite (write_at_cell_at _ _ _ _ _ _ _ _ Hc Hw).
  case_decide as Heq; [|done]. exfalso. apply Hne.
  rewrite cell_at_slot_of in Hc, Hc'. rewrite Heq in Hc'. congruence.
Qed.

(** ** Aisle and storage cells *)

Lemma is_reference_not_marker v : is_reference v → ¬ is_marker v.
Proof. intros (_ & HX & HS) [-> | ->]; done. Qed.

Lemma write_at_markers st row column c v st' :
  cell_at st row column = Some c → ¬ is_marker c → ¬ is_marker v →
  write_at st row column v = Some st' →
  markers_fixed st → markers_fixed st'.
Proof.
  intros Hc Hnc Hnv Hw Hfix l' k' m Hm.
  destruct (write_at_spec _ _ _ _ _ _ Hc Hw) as (l & k & _ & Hold & Hnew & Hother & _).
  destruct (decide (l' = l ∧ k' = k)) as [[-> ->] | Hne].
  - rewrite <- (Hfix l k m Hm), Hold, Hnew. split; intros [= <-]; done.
  - rewrite Hother; [by apply Hfix|].
    destruct (decide (l' = l)), (decide (k' = k)); tauto.
Qed.

Lemma step_markers st o st' : markers_fixed st → step o st = Some st' → markers_fixed st'.
Proof.
  intros Hfix. destruct o as [row column | row column passport first last | row column]; simpl.
  - rewrite check_availability_final. by intros [= <-].
  - intros [res Hb]%book_seat_final.
    apply book_seat_inv in Hb as [(_ & -> & _) | (ref & rest & st1 & _ & Hc & Hf & Hw & ->)];
      [done|].
    apply first_fresh_Some in Hf as (_ & d & _ & ->).
    eapply (write_at_markers (set_rng rest st)) in Hw; [exact Hw | exact Hc | | | exact Hfix].
    + by intros [[=] | [=]].
    + apply is_reference_not_marker, length8_is_reference, reference_of_draw_length.
  - intros [res Hf]%free_seat_final.
    apply free_seat_inv in Hf as [(_ & ->) | (ref & _ & Hc & Hr & _ & Hw)]; [done|].
    eapply (write_at_markers (set_bookings _ st)) in Hw; [exact Hw | exact Hc | | | exact Hfix].
    + by apply is_reference_not_marker.
    + by intros [[=] | [=]].
Qed.

Lemma init_store draws : store (init draws) = store (init []).
Proof. reflexivity. Qed.

Lemma reachable_markers st : reachable st → markers_fixed st.
Proof.
  apply reachable_invariant; [|eauto using step_markers].
  intros draws l k m _. unfold slot. by rewrite init_store.
Qed.

Lemma reachable_marker_cells st r c m :
  reachable st → is_marker m → cell st r c = Some m ↔ cell (init []) r c = Some m.
Proof.
  intros Hreach Hm. pose proof (reachable_shape st Hreach) as (Hseat & _).
  rewrite !cell_slot, Hseat. change (seating (init [])) with layout.
  destruct (layout !! r) as [l|]; simpl; [|done].
  by apply reachable_markers.
Qed.

Lemma init_cell_X r c : cell (init []) r c = Some "X" ↔ (r = 3 ∧ c < 4)%nat.
Proof.
  destruct r as [|[|[|[|[|[|[|r]]]]]]]; destruct c as [|[|[|[|c]]]];
    (split; [intros [=] | intros [? ?]]); (reflexivity || lia).
Qed.

Lemma init_cell_S r c : cell (init []) r c = Some "S" ↔ ((r = 5 ∨ r = 6) ∧ (c = 2 ∨ c = 3))%nat.
Proof.
  destruct r as [|[|[|[|[|[|[|r]]]]]]]; destruct c as [|[|[|[|c]]]];
    (split; [intros [=] | intros [[?|?] [?|?]]]); (reflexivity || lia).
Qed.

(** The seats that cannot be booked stay as [__init__] made them: in
    every reachable state the cells that hold ['X'] are those of row 3
    and the cells that hold ['S'] are columns 2 and 3 of rows 5 and 6;
    [is_seat_valid] is false on them, and [book_seat] and [free_seat]
    refuse them and leave the state unchanged. *)
Theorem blocked_cells_fixed (st : state) (r c : nat) :
  reachable st →
  (cell st r c = Some "X" ↔ (r = 3 ∧ c < 4)%nat) ∧
  (cell st r c = Some "S" ↔ ((r = 5 ∨ r = 6) ∧ (c = 2 ∨ c = 3))%nat) ∧
  ((r = 3 ∧ c < 4)%nat ∨ ((r = 5 ∨ r = 6) ∧ (c = 2 ∨ c = 3))%nat →
   is_seat_valid (Some (Z.of_nat r)) (Some (Z.of_nat c)) None st = Done false st ∧
   (∀ passport first last,
      book_seat (Z.of_nat r) (Z.of_nat c) passport first last st = Done SeatUnavailable st) ∧
   free_seat (Z.of_nat r) (Z.of_nat c) st = Done AlreadyFreeOrInvalid st).
Proof.
  intros Hreach.
  assert (cell st r c = Some "X" ↔ (r = 3 ∧ c < 4)%nat) as HX.
  { rewrite reachable_marker_cells by (done || by left). apply init_cell_X. }
  assert (cell st r c = Some "S" ↔ ((r = 5 ∨ r = 6) ∧ (c = 2 ∨ c = 3))%nat) as HS.
  { rewrite reachable_marker_cells by (done || by right). apply init_cell_S. }
  split_and!; [done..|].
  intros Hblocked.
  assert (∃ m, is_marker m ∧ cell_at st (Z.of_nat r) (Z.of_nat c) = Some m) as (m & Hm & Hc).
  { rewrite cell_at_of_nat. destruct Hblocked as [H | H].
    - exists "X". split; [by left | by apply HX].
    - exists "S". split; [by right | by apply HS]. }
  split_and!.
  - rewrite is_seat_valid_eq, Hc. by destruct Hm as [-> | ->].
  - intros. apply book_seat_refused. rewrite Hc. by destruct Hm as [-> | ->].
  - apply free_seat_refused. rewrite Hc. destruct Hm as [-> | ->]; auto.
Qed.

Lemma blocked_cells_fixed_witness :
  (cell one_booking 3 1 = Some "X" ↔ (3 = 3 ∧ 1 < 4)%nat) ∧
  (cell one_booking 3 1 = Some "S" ↔ ((3 = 5 ∨ 3 = 6) ∧ (1 = 2 ∨ 1 = 3))%nat) ∧
  ((3 = 3 ∧ 1 < 4)%nat ∨ ((3 = 5 ∨ 3 = 6) ∧ (1 = 2 ∨ 1 = 3))%nat →
   is_seat_valid (Some (Z.of_nat 3)) (Some (Z.of_nat 1)) None one_booking
   = Done false one_booking ∧
   (∀ passport first last,
      book_seat (Z.of_nat 3) (Z.of_nat 1) passport first last one_booking
      = Done SeatUnavailable one_booking) ∧
   free_seat (Z.of_nat 3) (Z.of_nat 1) one_booking = Done AlreadyFreeOrInvalid one_booking).
Proof.
  apply (blocked_cells_fixed one_booking 3 1).
  apply (reachable_step new_system (Book 0 0 "P123" "Ann" "Lee"));
    [apply reachable_init | reflexivity].
Defined.

(** ** The coordinates a booking records *)

Lemma ledger_keys_references st ref :
  ledger_matches_store st → ref ∈ dom (bookings st) → is_reference ref.
Proof. intros [Hdom _] (l & k & _ & _ & Hr)%Hdom. done. Qed.

Lemma init_coordinates draws : coordinates_agree (init draws).
Proof. intros ref b Hb. unfold init in Hb. simpl in Hb. by rewrite lookup_empty in Hb. Qed.

Lemma step_coordinates st o st' :
  ledger_matches_store st → coordinates_agree st →
  step o st = Some st' → coordinates_agree st'.
Proof.
  intros Hinv Hco. destruct o as [row column | row column passport first last | row column]; simpl.
  - rewrite check_availability_final. by intros [= <-].
  - intros [res Hb]%book_seat_final.
    apply book_seat_inv in Hb as [(_ & -> & _) | (ref & rest & st1 & _ & Hc & Hf & Hw & ->)];
      [done|].
    intros ref' b'. cbn [bookings set_bookings].
    change (cell_at (set_bookings _ st1)) with (cell_at st1).
    destruct (decide (ref' = ref)) as [-> | Hne].
    + rewrite lookup_insert_eq. intros [= <-]. simpl.
      by destruct (write_at_cell (set_rng rest st) row column "F" ref Hc)
        as (st2 & Hw' & Hc2 & _); simplify_eq.
    + rewrite lookup_insert_ne by done. intros Hb'.
      eapply (write_at_cell_other (set_rng rest st)); [exact Hc | exact Hw | by apply Hco |].
      assert (is_reference ref') as (HF & _); [|done].
      eapply ledger_keys_references; [done|]. apply elem_of_dom. eauto.
  - intros [res Hf]%free_seat_final.
    apply free_seat_inv in Hf as [(_ & ->) | (ref & _ & Hc & _ & _ & Hw)]; [done|].
    intros ref' b'.
    assert (bookings st' = delete ref (bookings st)) as ->
      by (by apply write_at_frame in Hw as (_ & -> & _)).
    destruct (decide (ref' = ref)) as [-> | Hne]; [by rewrite lookup_delete_eq|].
    rewrite lookup_delete_ne by done. intros Hb'.
    eapply (write_at_cell_other (set_bookings _ st)); [exact Hc | exact Hw | by apply Hco | done].
Qed.

Lemma reachable_coordinates st : reachable st → coordinates_agree st.
Proof.
  intros Hreach.
  enough (ledger_matches_store st ∧ coordinates_agree st) as [_ ?] by done.
  revert st Hreach. apply reachable_invariant.
  - intros draws. split; [apply init_ledger | apply init_coordinates].
  - intros st o st' [Hinv Hco] Hstep. split; [by eapply step_ledger | by eapply step_coordinates].
Qed.

(** In every reachable state the row and column a ledger entry records
    lead back to it: the cell they index holds the entry's reference, and
    [check_availability] on them answers with the entry's passenger. *)
Theorem recorded_coordinates_lead_back (st : state) (ref : string) (b : booking) :
  reachable st →
  bookings st !! ref = Some b →
  cell_at st (seat_row b) (seat_column b) = Some ref ∧
  check_availability (seat_row b) (seat_column b) st
  = Done (Taken ref (passport_number b) (first_name b) (last_name b)) st.
Proof.
  intros Hreach Hb. pose proof (reachable_coordinates st Hreach ref b Hb) as Hc.
  split; [done|]. rewrite check_availability_eq, Hc.
  assert (is_reference ref) as Hr.
  { eapply ledger_keys_references; [by apply reachable_ledger|]. apply elem_of_dom. eauto. }
  rewrite is_reference_py_in, is_reference_eqb_F by done. simpl. by rewrite Hb.
Qed.

Lemma recorded_coordinates_lead_back_witness :
  cell_at last_row_booking 5 0 = Some "ABCDEFGH" ∧
  check_availability 5 0 last_row_booking
  = Done (Taken "ABCDEFGH" "P123" "Ann" "Lee") last_row_booking.
Proof.
  apply (recorded_coordinates_lead_back last_row_booking "ABCDEFGH"
           (Booking "P123" "Ann" "Lee" 5 0)).
  - apply (reachable_step new_system (Book 5 0 "P123" "Ann" "Lee"));
      [apply reachable_init | reflexivity].
  - reflexivity.
Defined.

(** ** Queries on a reachable state *)

Lemma check_availability_on_reachable (st : state) (row column : Z) :
  reachable st →
  ∃ r,
    check_availability row column st = Done r st ∧
    ∀ ref passport first last,
      r = Taken ref passport first last →
      cell_at st row column = Some ref ∧
      ∃ b, bookings st !! ref = Some b ∧ passport = passport_number b ∧
           first = first_name b ∧ last = last_name b.
Proof.
  intros Hreach. rewrite check_availability_eq.
  destruct (cell_at st row column) as [c|] eqn:Hc; [|by exists Invalid].
  destruct (py_in c ["X"; "S"]) eqn:Hin; [by exists Invalid|].
  destruct (String.eqb_spec c "F") as [-> | HF]; [by exists Available|].
  assert (is_reference c) as Hr.
  { unfold py_in in Hin. simpl in Hin. rewrite orb_false_r in Hin.
    apply orb_false_elim in Hin as [HX HS]. apply String.eqb_neq in HX, HS. done. }
  assert (c ∈ dom (bookings st)) as [b Hb]%elem_of_dom.
  { apply (reachable_ledger st Hreach).
    pose proof Hc as (l & k & Hl & _ & _ & Hk)%cell_at_inv.
    exists l, k. split_and!; [by eapply item_elem_of | by rewrite <- deref_slot | done]. }
  rewrite Hb. eexists. split; [done|].
  intros ref passport first last [= <- <- <- <-]. split; [done|]. by exists b.
Qed.

(** In every reachable state [check_availability] returns for all integer
    coordinates: the ledger lookup of a reference found in the grid cannot
    fail there. It leaves the state as it was, and a [Taken] answer
    carries the fields of the ledger entry of the reference it names. *)
Theorem check_availability_returns (st : state) (row column : Z) :
  reachable st →
  ∃ r,
    check_availability row column st = Done r st ∧
    ∀ ref passport first last,
      r = Taken ref passport first last →
      cell_at st row column = Some ref ∧
      ∃ b, bookings st !! ref = Some b ∧ passport = passport_number b ∧
           first = first_name b ∧ last = last_name b.
Proof. apply check_availability_on_reachable. Qed.

Lemma check_availability_returns_witness :
  ∃ r,
    check_availability 6 0 last_row_booking = Done r last_row_booking ∧
    ∀ ref passport first last,
      r = Taken ref passport first last →
      cell_at last_row_booking 6 0 = Some ref ∧
      ∃ b, bookings last_row_booking !! ref = Some b ∧ passport = passport_number b ∧
           first = first_name b ∧ last = last_name b.
Proof.
  apply (check_availability_returns last_row_booking 6 0).
  apply (reachable_step new_system (Book 5 0 "P123" "Ann" "Lee"));
    [apply reachable_init | reflexivity].
Defined.

(** Outside the reachable states the lookup can fail: on a grid that
    shows a reference the ledger lacks, [check_availability] raises
    [KeyError]. *)
Example check_availability_ghost :
  check_availability 0 0 ghost_state = Raised (KeyError "GHOSTREF") ghost_state.
Proof. reflexivity. Qed.

(** ** How bookings and releases compose *)

Lemma write_at_explicit st row column c v :
  cell_at st row column = Some c →
  ∃ l k,
    item (seating st) row = Some l ∧ store st !! l = Some (deref st l) ∧
    py_index (length (deref st l)) column = Some k ∧ deref st l !! k = Some c ∧
    write_at st row column v
    = Some (set_store (<[l := <[k := v]> (deref st l)]> (store st)) st).
Proof.
  intros (l & k & Hl & Hs & Hk & Hc)%cell_at_inv. exists l, k.
  split_and!; try done. unfold write_at. rewrite Hl. simpl. by rewrite Hk.
Qed.

(** Booking a free seat and freeing it again gives back the grid and the
    ledger as they were; only the draws the reference took are used up. *)
Theorem book_then_free_restores (st : state) (row column : Z)
    (passport first last : string) :
  cell_at st row column = Some "F" →
  Exists (fun d => reference_of_draw d ∉ dom (bookings st)) (rng st) →
  ∃ ref st' st'',
    book_seat row column passport first last st = Done (Booked ref) st' ∧
    free_seat row column st' = Done Freed st'' ∧
    store st'' = store st ∧ seating st'' = seating st ∧ bookings st'' = bookings st.
Proof.
  intros Hc [[ref rest] Hf]%first_fresh_Exists.
  destruct (write_at_explicit (set_rng rest st) row column "F" ref Hc)
    as (l & k & Hl & Hs & Hk & HF & Hw).
  change (deref (set_rng rest st)) with (deref st) in *.
  cbn [set_rng store seating] in Hl, Hs, Hw.
  pose proof (first_fresh_Some _ _ _ _ Hf) as (Hnew & d & _ & Hd).
  assert (is_reference ref) as Hr
    by (subst ref; apply length8_is_reference, reference_of_draw_length).
  set (b := Booking passport first last row column).
  set (st1 := set_store (<[l := <[k := ref]> (deref st l)]> (store st)) (set_rng rest st)) in *.
  set (st' := set_bookings (<[ref := b]> (bookings st)) st1).
  assert (book_seat row column passport first last st = Done (Booked ref) st') as Hbook.
  { rewrite book_seat_eq, decide_True, Hf by done. by rewrite Hw. }
  assert (l < length (store st))%nat as Hlt by (by eapply lookup_lt_Some).
  assert (deref st' l = <[k := ref]> (deref st l)) as Hrow'.
  { unfold deref at 1. simpl. by rewrite list_lookup_insert_eq. }
  assert (cell_at st' row column = Some ref) as Hc'.
  { unfold cell_at. change (seating st') with (seating st). rewrite Hl. simpl.
    rewrite Hrow'. by apply item_insert. }
  exists ref, st', (set_rng rest st). split_and!; try done.
  rewrite free_seat_eq, Hc'.
  rewrite is_reference_py_in, is_reference_eqb_F by done. simpl.
  rewrite decide_True by (rewrite dom_insert_L; by apply elem_of_union_l, elem_of_singleton).
  unfold write_at. change (seating (set_bookings _ st')) with (seating st).
  rewrite Hl. simpl.
  change (deref (set_bookings (delete ref (<[ref:=b]> (bookings st))) st') l)
    with (deref st' l).
  rewrite Hrow', length_insert, Hk. simpl. do 2 f_equal.
  unfold set_store, set_bookings, set_rng. simpl. f_equal.
  - rewrite list_insert_insert_eq, list_insert_insert_eq.
    rewrite (list_insert_id (deref st l)) by done. by apply list_insert_id.
  - rewrite delete_insert_eq. by apply delete_id, not_elem_of_dom.
Qed.

Lemma book_then_free_restores_witness :
  ∃ ref st' st'',
    book_seat (-1) 1 "P123" "Ann" "Lee" one_booking = Done (Booked ref) st' ∧
    free_seat (-1) 1 st' = Done Freed st'' ∧
    store st'' = store one_booking ∧ seating st'' = seating one_booking ∧
    bookings st'' = bookings one_booking.
Proof.
  apply (book_then_free_restores one_booking (-1) 1 "P123" "Ann" "Lee").
  - reflexivity.
  - apply Exists_cons_tl, Exists_cons_hd. vm_compute. inversion 1.
Defined.

(** A seat cannot be booked twice, nor freed twice: after a successful
    [book_seat] every further [book_seat] on the same coordinates is
    refused, and after a successful [free_seat] a further [free_seat] on
    them is refused; both refusals leave the state unchanged. *)
Theorem repeated_operation_refused (st st' : state) (row column : Z) :
  (∀ passport first last ref,
     book_seat row column passport first last st = Done (Booked ref) st' →
     ∀ passport' first' last',
       book_seat row column passport' first' last' st' = Done SeatUnavailable st') ∧
  (free_seat row column st = Done Freed st' →
   free_seat row column st' = Done AlreadyFreeOrInvalid st').
Proof.
  split.
  - intros passport first last ref Hb passport' first' last'.
    apply book_seat_inv in Hb as [([=] & _) | (ref' & rest & st1 & [= <-] & Hc & Hf & Hw & ->)].
    destruct (write_at_cell (set_rng rest st) row column "F" ref Hc) as (st2 & Hw' & Hc2 & _).
    rewrite Hw in Hw'. injection Hw' as <-.
    apply book_seat_refused. change (cell_at (set_bookings _ st1)) with (cell_at st1).
    rewrite Hc2. intros [= ->].
    apply first_fresh_Some in Hf as (_ & d & _ & Hd).
    pose proof (reference_of_draw_length d) as Hlen. by rewrite <- Hd in Hlen.
  - intros Hf.
    apply free_seat_inv in Hf as [([] & _) | (ref & _ & Hc & _ & _ & Hw)]; [done|].
    destruct (write_at_cell (set_bookings (delete ref (bookings st)) st) row column ref "F" Hc)
      as (st2 & Hw' & Hc2 & _).
    rewrite Hw in Hw'. injection Hw' as <-.
    apply free_seat_refused. rewrite Hc2. by left.
Qed.

Lemma repeated_operation_refused_witness :
  (∀ passport' first' last',
     book_seat 0 0 passport' first' last' one_booking = Done SeatUnavailable one_booking) ∧
  free_seat 0 0 (after (free_seat 0 0) one_booking)
  = Done AlreadyFreeOrInvalid (after (free_seat 0 0) one_booking).
Proof.
  split.
  - apply (proj1 (repeated_operation_refused new_system one_booking 0 0)
             "P123" "Ann" "Lee" "ABCDEFGH").
    reflexivity.
  - apply (proj2 (repeated_operation_refused one_booking (after (free_seat 0 0) one_booking)
                    0 0)).
    reflexivity.
Defined.

(** ** What a booking or a release leaves alone *)

Lemma slot_of_nat st (r c : nat) l k :
  slot_of st (Z.of_nat r) (Z.of_nat c) = Some (l, k) → seating st !! r = Some l ∧ k = c.
Proof.
  unfold slot_of. rewrite item_of_nat.
  destruct (seating st !! r) as [l'|]; simpl; [|done].
  rewrite py_index_of_nat. case_decide; simpl; [|done]. by intros [= <- <-].
Qed.

Lemma write_at_only_seat st (r c : nat) v0 v st' :
  shape st →
  cell_at st (Z.of_nat r) (Z.of_nat c) = Some v0 →
  write_at st (Z.of_nat r) (Z.of_nat c) v = Some st' →
  only_seat_changed st st' r c.
Proof.
  intros (Hseat & _) Hc Hw r' c' Hdiff.
  rewrite <- !cell_at_of_nat in Hdiff.
  rewrite (write_at_cell_at _ _ _ _ _ _ _ _ Hc Hw) in Hdiff.
  case_decide as Heq; [|done].
  destruct (write_at_spec _ _ _ _ _ _ Hc Hw) as (l & k & Hso & _).
  rewrite Hso in Heq. apply slot_of_nat in Hso as [Hl ->], Heq as [Hl' ->].
  split; [done|]. rewrite Hseat in Hl, Hl'.
  destruct (layout_alias r' r l Hl' Hl) as [? | [[? ?] | [? ?]]]; auto.
Qed.

(** In a reachable state a successful [book_seat] adds one ledger entry,
    with the passenger and the coordinates given, and a successful
    [free_seat] deletes the entry of the reference the cell held; either
    changes no grid cell but the seat addressed and, in rows 5 and 6, the
    cell below or above it. *)
Theorem mutators_change_one_seat (st st' : state) (r c : nat) :
  reachable st →
  (∀ passport first last ref,
     book_seat (Z.of_nat r) (Z.of_nat c) passport first last st = Done (Booked ref) st' →
     bookings st'
     = <[ref := Booking passport first last (Z.of_nat r) (Z.of_nat c)]> (bookings st) ∧
     only_seat_changed st st' r c) ∧
  (free_seat (Z.of_nat r) (Z.of_nat c) st = Done Freed st' →
   (∃ ref, cell st r c = Some ref ∧ bookings st' = delete ref (bookings st)) ∧
   only_seat_changed st st' r c).
Proof.
  intros Hs%reachable_shape. split.
  - intros passport first last ref Hb.
    apply book_seat_inv in Hb as [([=] & _) | (ref' & rest & st1 & [= <-] & Hc & Hf & Hw & ->)].
    split; [done|].
    change (only_seat_changed (set_rng rest st) st1 r c).
    by eapply write_at_only_seat.
  - intros Hf.
    apply free_seat_inv in Hf as [([] & _) | (ref & _ & Hc & _ & _ & Hw)]; [done|].
    split.
    + exists ref. split; [by rewrite <- cell_at_of_nat|].
      by apply write_at_frame in Hw as (_ & -> & _).
    + change (only_seat_changed (set_bookings (delete ref (bookings st)) st) st' r c).
      by eapply write_at_only_seat.
Qed.

Lemma mutators_change_one_seat_witness :
  (∀ passport first last ref,
     book_seat (Z.of_nat 5) (Z.of_nat 0) passport first last new_system
     = Done (Booked ref) last_row_booking →
     bookings last_row_booking
     = <[ref := Booking passport first last (Z.of_nat 5) (Z.of_nat 0)]> (bookings new_system) ∧
     only_seat_changed new_system last_row_booking 5 0) ∧
  (free_seat (Z.of_nat 5) (Z.of_nat 0) new_system = Done Freed last_row_booking →
   (∃ ref, cell new_system 5 0 = Some ref ∧
           bookings last_row_booking = delete ref (bookings new_system)) ∧
   only_seat_changed new_system last_row_booking 5 0).
Proof.
  apply (mutators_change_one_seat new_system last_row_booking 5 0).
  apply reachable_init.
Defined.

(** ** How many bookings there can be *)

Lemma length_omap_le {A B} (f : A → option B) (l : list A) :
  (length (omap f l) ≤ length l)%nat.
Proof.
  induction l as [|x l IH]; csimpl; [lia|]. destruct (f x); csimpl; lia.
Qed.

Lemma used_bookable st l k ref :
  shape st → markers_fixed st → used st l k ref → (l, k) ∈ bookable_slots.
Proof.
  intros (Hseat & _ & Hrows) Hfix (Hl & Hs & Hr).
  assert (k < 4)%nat as Hk.
  { unfold slot in Hs. destruct (store st !! l) as [row|] eqn:Hrow; simpl in Hs; [|done].
    eapply Forall_lookup in Hrows; [|exact Hrow]. simpl in Hrows.
    apply lookup_lt_Some in Hs. lia. }
  assert (∀ m, is_marker m → slot (init []) l k = Some m → False) as Hno.
  { intros m Hm Hinit. apply (Hfix l k m Hm) in Hinit. rewrite Hs in Hinit.
    injection Hinit as ->. by apply is_reference_not_marker in Hr. }
  rewrite Hseat in Hl. unfold layout in Hl.
  repeat (apply elem_of_cons in Hl as [-> | Hl]);
    [..|by apply elem_of_nil in Hl];
    destruct k as [|[|[|[|k]]]];
    first [ lia
          | by (exfalso; apply (Hno "X"); [by left | reflexivity])
          | by (exfalso; apply (Hno "S"); [by right | reflexivity])
          | unfold bookable_slots; repeat (first [by left | right]) ].
Qed.

(** In every reachable state the ledger has at most 18 entries: the
    grid shows 20 seats that are not blocked, but rows 5 and 6 are one row
    object, so only 18 cells can hold a reference. *)
Theorem at_most_18_bookings (st : state) :
  reachable st → (size (bookings st) ≤ 18)%nat.
Proof.
  intros Hreach.
  pose proof (reachable_shape st Hreach) as Hs.
  pose proof (reachable_markers st Hreach) as Hfix.
  pose proof (reachable_ledger st Hreach) as [Hdom _].
  rewrite <- size_dom. unfold size, set_size. simpl.
  etrans; [|apply (length_omap_le (fun '(l, k) => slot st l k) bookable_slots)].
  apply submseteq_length, NoDup_submseteq; [apply NoDup_elements|].
  intros ref (l & k & Hu)%elem_of_elements%Hdom.
  apply list_elem_of_omap. exists (l, k). split; [by eapply used_bookable|].
  by destruct Hu as (_ & ? & _).
Qed.

Lemma at_most_18_bookings_witness : (size (bookings last_row_booking) ≤ 18)%nat.
Proof.
  apply (at_most_18_bookings last_row_booking).
  apply (reachable_step new_system (Book 5 0 "P123" "Ann" "Lee"));
    [apply reachable_init | reflexivity].
Defined.

(** The bound is reached: eighteen bookings, one for each cell that can
    hold a reference, fill the ledger. *)
Example eighteen_bookings :
  match book_all
          (flat_map (fun r => map (fun c => (r, c, "P", "A", "B")) [0; 1; 2; 3]) [0; 1; 2; 4]
           ++ [(5, 0, "P", "A", "B"); (5, 1, "P", "A", "B")])
          (init (map (fun i => [i]) (seq 0 18))) with
  | Some (refs, st') => length refs = 18%nat ∧ size (bookings st') = 18%nat
  | None => False
  end.
Proof. vm_compute. done. Qed.

(** * The console *)

(** ** Rules for running console code *)

Lemma wp_ret {A} (a : A) Q E st con : Q a st con → wp (mret a) Q E st con.
Proof. done. Qed.

Lemma wp_bind {A B} (m : IO A) (k : A → IO B) Q E st con :
  wp m (fun a => wp (k a) Q E) E st con → wp (m ≫= k) Q E st con.
Proof.
  unfold wp, mbind, IO_bind. by destruct (m st con).
Qed.

Lemma wp_mono {A} (m : IO A) (Q Q' : A → state → console → Prop)
    (E E' : raised → state → console → Prop) st con :
  wp m Q E st con →
  (∀ a st' con', Q a st' con' → Q' a st' con') →
  (∀ e st' con', E e st' con' → E' e st' con') →
  wp m Q' E' st con.
Proof. unfold wp. destruct (m st con); eauto. Qed.

Lemma wp_print s Q E st con :
  Q tt st (Console (stdin con) (stdout con ++ [Printed s])) → wp (print s) Q E st con.
Proof. done. Qed.

Lemma wp_input prompt Q E st con :
  (∀ line rest, stdin con = line :: rest →
                Q line st (Console rest (stdout con ++ [Prompted prompt]))) →
  (stdin con = [] → E EOFError st (Console [] (stdout con ++ [Prompted prompt]))) →
  wp (input prompt) Q E st con.
Proof. unfold wp, input. destruct (stdin con); eauto. Qed.

Lemma wp_call {A} (m : M A) Q E st con :
  match m st with
  | Done a st' => Q a st' con
  | Raised e st' => E (Engine e) st' con
  | Starved => True
  end →
  wp (call m) Q E st con.
Proof. unfold wp, call. by destruct (m st). Qed.

Lemma wp_text t s Q E st con : t = inr s → Q s st con → wp (text t) Q E st con.
Proof. by intros ->. Qed.

Lemma wp_int max s Q E st con :
  (forallb is_decimal_char (list_ascii_of_string s) = true → Q (decimal_value s) st con) →
  E IntValueError st con →
  wp (int_of_digits max s) Q E st con.
Proof.
  unfold wp, int_of_digits.
  destruct (forallb is_decimal_char (list_ascii_of_string s)); simpl; [|done].
  destruct (_ || _); eauto.
Qed.

(** ** [show_booking_state] *)

Lemma show_cells_eq row : ∀ row_line st con,
  show_cells row row_line st con
  = Returned (fold_left (fun line x => line +:+ cell_text x) row row_line) st con.
Proof.
  induction row as [|x row IH]; intros row_line st con; [done|].
  cbn [show_cells fold_left]. unfold mbind, IO_bind, call, is_seat_valid, mret, M_ret, ret.
  cbn beta iota. rewrite <- IH. clear IH.
  unfold cell_text, symbol.
  destruct (py_in x ["X"; "S"]) eqn:Hin; cbn [negb andb].
  - assert (String.eqb x "F" = false) as ->.
    { apply String.eqb_neq. intros ->. done. }
    unfold py_in in Hin. simpl in Hin. rewrite orb_false_r in Hin.
    apply orb_prop in Hin as [->%String.eqb_eq | ->%String.eqb_eq]; reflexivity.
  - destruct (String.eqb_spec x "F") as [-> | HF]; cbn [negb]; reflexivity.
Qed.

Lemma show_rows_eq rows : ∀ i st con,
  show_rows i rows st con
  = Returned tt st (Console (stdin con) (stdout con ++ map Printed (rows_text st i rows))).
Proof.
  induction rows as [|l rows IH]; intros i st con.
  { simpl. rewrite app_nil_r. by destruct con. }
  cbn [show_rows rows_text]. unfold mbind, IO_bind, call, get. cbn beta iota.
  rewrite show_cells_eq. cbn beta iota.
  unfold text, Presentation.TextColor. cbn [Presentation.assoc Presentation.TEXT_COLORS].
  simpl String.eqb. cbn beta iota. unfold print. rewrite IH.
  cbn [stdin stdout map]. rewrite <- app_assoc. reflexivity.
Qed.

Lemma show_booking_state_eq (st : state) (con : console) :
  show_booking_state st con
  = Returned tt st
      (Console (stdin con)
               (stdout con ++ map Printed (rows_text st 0 (seating st) ++ [legend]))).
Proof.
  unfold show_booking_state, mbind, IO_bind, call, get. cbn beta iota.
  rewrite show_rows_eq. unfold print. cbn [stdin stdout].
  by rewrite map_app, app_assoc.
Qed.

(** [show_booking_state] never raises and reads nothing; it leaves the
    object as it was and prints one line for each entry of the grid, in
    order, and then the legend. A cell appears as ['F'], ['X'] or ['S'],
    and as ['R'] whatever else it holds. *)
Theorem show_booking_state_prints (st : state) (con : console) :
  show_booking_state st con
  = Returned tt st
      (Console (stdin con)
               (stdout con ++ map Printed (rows_text st 0 (seating st) ++ [legend]))).
Proof. apply show_booking_state_eq. Qed.

Lemma symbol_cases x :
  (x = "F" ∧ symbol x = "F") ∨ (x = "X" ∧ symbol x = "X") ∨ (x = "S" ∧ symbol x = "S") ∨
  (is_reference x ∧ symbol x = "R").
Proof.
  unfold symbol, py_in. simpl.
  destruct (String.eqb_spec x "X") as [-> | HX]; [auto|].
  destruct (String.eqb_spec x "S") as [-> | HS]; [auto|].
  destruct (String.eqb_spec x "F") as [-> | HF]; [auto|].
  simpl. right. right. right. done.
Qed.

Lemma cell_text_symbol x y : symbol x = symbol y → cell_text x = cell_text y.
Proof.
  intros Heq. unfold cell_text. rewrite Heq. do 2 f_equal.
  destruct (symbol_cases x) as [[-> Hx] | [[-> Hx] | [[-> Hx] | [(HF & _) Hx]]]];
    destruct (symbol_cases y) as [[-> Hy] | [[-> Hy] | [[-> Hy] | [(HF' & _) Hy]]]];
    rewrite ?Hx, ?Hy in Heq; try discriminate Heq; try reflexivity.
  apply String.eqb_neq in HF, HF'. by rewrite HF, HF'.
Qed.

Lemma row_text_symbol i row1 row2 :
  map symbol row1 = map symbol row2 → row_text i row1 = row_text i row2.
Proof.
  intros Hmap. unfold row_text. f_equal.
  generalize "". revert row2 Hmap.
  induction row1 as [|x row1 IH]; intros [|y row2] Hmap line; try done.
  injection Hmap as Hxy Hmap. simpl. rewrite (cell_text_symbol x y Hxy). by apply IH.
Qed.

(** The display shows which seats are taken and nothing of who took
    them: two objects whose grids have the same entries and whose row
    objects agree on the symbol of every cell print the same lines,
    whatever references and ledgers they hold. *)
Theorem display_hides_references (st1 st2 : state) (con : console) :
  seating st1 = seating st2 →
  (∀ l, l ∈ seating st1 → map symbol (deref st1 l) = map symbol (deref st2 l)) →
  ∃ out,
    show_booking_state st1 con = Returned tt st1 (Console (stdin con) out) ∧
    show_booking_state st2 con = Returned tt st2 (Console (stdin con) out).
Proof.
  intros Hseat Hsym. rewrite !show_booking_state_eq. eexists. split; [done|].
  do 4 f_equal. rewrite <- Hseat.
  generalize 0%nat. revert Hsym. generalize (seating st1).
  induction l as [|l rows IH]; intros Hsym i; [done|].
  simpl. f_equal.
  - symmetry. apply row_text_symbol, Hsym. by left.
  - apply IH. intros l' Hl'. apply Hsym. by right.
Qed.

Lemma display_hides_references_witness :
  ∃ out,
    show_booking_state one_booking (Console [] [])
    = Returned tt one_booking (Console (stdin (Console [] [])) out) ∧
    show_booking_state ghost_state (Console [] [])
    = Returned tt ghost_state (Console (stdin (Console [] [])) out).
Proof.
  apply (display_hides_references one_booking ghost_state (Console [] [])).
  - reflexivity.
  - intros l Hl. unfold one_booking, new_system, after in Hl. simpl in Hl.
    repeat (apply elem_of_cons in Hl as [-> | Hl]; [reflexivity|]).
    by apply elem_of_nil in Hl.
Defined.

(** ** Colours and messages *)

Lemma list_ascii_of_append s t :
  list_ascii_of_string (s +:+ t) = list_ascii_of_string s ++ list_ascii_of_string t.
Proof. induction s as [|c s IH]; simpl; [done | by rewrite IH]. Qed.

Lemma list_ascii_of_string_inj s t :
  list_ascii_of_string s = list_ascii_of_string t → s = t.
Proof.
  intros H. rewrite <- (string_of_list_ascii_of_string s), H.
  apply string_of_list_ascii_of_string.
Qed.

Lemma string_app_inv_tail s1 s2 t : s1 +:+ t = s2 +:+ t → s1 = s2.
Proof.
  intros H%(f_equal list_ascii_of_string). rewrite !list_ascii_of_append in H.
  by apply app_inv_tail, list_ascii_of_string_inj in H.
Qed.

Lemma string_app_inj_length s1 s2 t1 t2 :
  String.length s1 = String.length s2 → s1 +:+ t1 = s2 +:+ t2 → s1 = s2.
Proof.
  intros Hlen H%(f_equal list_ascii_of_string). rewrite !list_ascii_of_append in H.
  apply app_inj_1 in H as [H _]; [by apply list_ascii_of_string_inj|].
  rewrite <- (string_of_list_ascii_of_string s1), <- (string_of_list_ascii_of_string s2) in Hlen.
  by rewrite !length_string_of_list_ascii in Hlen.
Qed.

Lemma string_app_nil_l s : "" +:+ s = s.
Proof. reflexivity. Qed.

Lemma string_app_assoc s t u : (s +:+ t) +:+ u = s +:+ (t +:+ u).
Proof.
  induction s as [|c s IH]; [done|].
  change (String c ((s +:+ t) +:+ u) = String c (s +:+ (t +:+ u))). by f_equal.
Qed.

Lemma assoc_Some k d v : Presentation.assoc k d = Some v → (k, v) ∈ d.
Proof.
  induction d as [|[k' v'] d IH]; simpl; [done|].
  destruct (String.eqb_spec k k') as [-> | Hne].
  - intros [= ->]. by left.
  - intros H. right. by apply IH.
Qed.

Lemma assoc_None k d : Presentation.assoc k d = None ↔ k ∉ d.*1.
Proof.
  induction d as [|[k' v'] d IH]; simpl.
  - split; [intros _ H; by apply elem_of_nil in H | done].
  - destruct (String.eqb_spec k k') as [-> | Hne].
    + split; [done|]. intros H. exfalso. apply H. by left.
    + rewrite IH. split.
      * intros Hn [-> | H]%elem_of_cons; done.
      * intros Hn H. apply Hn. by right.
Qed.

(** A colour code is five characters, and no two colours share one. *)
Lemma text_colors_codes c1 code1 rest1 c2 code2 rest2 :
  (c1, code1) ∈ Presentation.TEXT_COLORS → (c2, code2) ∈ Presentation.TEXT_COLORS →
  code1 +:+ rest1 = code2 +:+ rest2 → c1 = c2 ∧ rest1 = rest2.
Proof.
  unfold Presentation.TEXT_COLORS. intros H1 H2.
  repeat (apply elem_of_cons in H1 as [[= -> ->] | H1]);
    [..|by apply elem_of_nil in H1];
    (repeat (apply elem_of_cons in H2 as [[= -> ->] | H2]);
     [..|by apply elem_of_nil in H2]);
    simpl; intros Heq; by simplify_eq.
Qed.

(** [TextColor] raises [ValueError], naming the colour, exactly when the
    colour is not one of the sixteen names of [TEXT_COLORS]; and the text
    it returns tells both the colour and the text it was given. *)
Theorem TextColor_colours (text0 color : string) (continuous : bool) :
  (∀ e, Presentation.TextColor text0 color continuous = inl e ↔
        (color ∉ Presentation.TEXT_COLORS.*1) ∧
        e = ValueError ("Invalid color name: " +:+ color)) ∧
  (∀ text' color' s,
     Presentation.TextColor text0 color continuous = inr s →
     Presentation.TextColor text' color' continuous = inr s →
     text' = text0 ∧ color' = color).
Proof.
  unfold Presentation.TextColor. split.
  - intros e. destruct (Presentation.assoc color _) as [code|] eqn:Hc.
    + split; [done|]. intros [Hn _]. apply assoc_None in Hn. congruence.
    + apply assoc_None in Hc. split; [intros [= <-]; done | intros [_ ->]; done].
  - intros text' color' s.
    destruct (Presentation.assoc color _) as [code|] eqn:Hc; [|done].
    destruct (Presentation.assoc color' _) as [code'|] eqn:Hc'; [|done].
    intros [= <-] [= Heq].
    apply assoc_Some in Hc, Hc'.
    destruct (text_colors_codes _ _ _ _ _ _ Hc' Hc Heq) as [-> Htext].
    split; [|done]. by apply string_app_inv_tail in Htext.
Qed.

(** The text a method returns tells its outcome: the messages of
    [book_seat] and of [free_seat] are different for different results,
    and two messages of [check_availability] that are equal come from
    answers of the same kind, naming the same reference when the two
    references are equally long. *)
Theorem messages_tell_outcomes :
  (∀ r1 r2, Presentation.BookResult_message r1 = Presentation.BookResult_message r2 →
            r1 = r2) ∧
  (∀ r1 r2, Presentation.FreeResult_message r1 = Presentation.FreeResult_message r2 →
            r1 = r2) ∧
  (∀ r1 r2, Presentation.QueryResult_message r1 = Presentation.QueryResult_message r2 →
            same_answer r1 r2).
Proof.
  split_and!.
  - intros [|ref1] [|ref2]; try done; simpl; intros [= Heq].
    apply string_app_inv_tail in Heq. rewrite !string_app_nil_l in Heq.
    by apply string_app_inv_tail in Heq as ->.
  - by intros [] [].
  - intros [| |ref1 p1 f1 l1] [| |ref2 p2 f2 l2]; try done.
    simpl. intros [= Heq] Hlen. rewrite ?string_app_nil_l, ?string_app_assoc in Heq.
    by eapply string_app_inj_length.
Qed.

(** The passenger fields cannot always be told apart in the message of a
    taken seat: a name that contains a label of the message reads like
    the next field. *)
Example taken_message_ambiguous :
  Presentation.QueryResult_message
    (Taken "ABCDEFGH" ("1" +:+ Presentation.NL +:+ "First Name: A") "B" "C")
  = Presentation.QueryResult_message
      (Taken "ABCDEFGH" "1" ("A" +:+ Presentation.NL +:+ "First Name: B") "C").
Proof. reflexivity. Qed.

(** ** [run] *)

Ltac wp_go :=
  repeat lazymatch goal with
    | |- wp (mbind _ _) _ _ _ _ => apply wp_bind
    | |- wp (text _) _ _ _ _ => eapply wp_text; [reflexivity|]
    | |- wp (print _) _ _ _ _ => apply wp_print
    | |- wp (mret _) _ _ _ _ => apply wp_ret
    end.

Ltac eof_leaf :=
  intros; cbn beta; split; [done | intros; split; [assumption | by left]].

Lemma wp_show Q E st con :
  Q tt st (Console (stdin con)
                   (stdout con ++ map Printed (rows_text st 0 (seating st) ++ [legend]))) →
  wp show_booking_state Q E st con.
Proof. unfold wp. by rewrite show_booking_state_eq. Qed.

Ltac used_lines Hin :=
  rewrite Hin; split; [simpl; lia | repeat apply suffix_cons_r; done].

Lemma round_spec max st con :
  wp (round max)
     (fun c st' con' =>
        (length (stdin con') < length (stdin con))%nat ∧
        stdin con' `suffix_of` stdin con ∧
        (c = Break → ∃ rest, stdin con = "5" :: rest ∧ st' = st) ∧
        (reachable st → reachable st'))
     (fun e st' con' =>
        (e = EOFError → stdin con' = []) ∧
        (reachable st → reachable st' ∧ (e = EOFError ∨ e = IntValueError)))
     st con.
Proof.
  assert (∀ (st' : state) (lines : list string) (o : option op),
            (length lines < length (stdin con))%nat ∧ lines `suffix_of` stdin con →
            match o with
            | Some o => step o st = Some st'
            | None => st' = st
            end →
            (length lines < length (stdin con))%nat ∧
            lines `suffix_of` stdin con ∧
            (Next = Break → ∃ rest, stdin con = "5" :: rest ∧ st' = st) ∧
            (reachable st → reachable st')) as Hnext.
  { intros st' lines [o|] [Hlen Hsuf] Hst; (split_and!; [done | done | done |]).
    - intros Hr. by eapply reachable_step.
    - by subst. }
  assert (∀ con',
            (IntValueError = EOFError → stdin con' = []) ∧
            (reachable st →
             reachable st ∧ (IntValueError = EOFError ∨ IntValueError = IntValueError)))
    as Hint by (intros; split_and!; [done | auto]).
  unfold round. wp_go. apply wp_input; cbn [stdin stdout]; [|eof_leaf].
  intros choice rest Hin.
  destruct (String.eqb_spec choice "5") as [-> | H5].
  { wp_go. cbn [stdin]. rewrite Hin.
    split_and!; [simpl; lia | by apply suffix_cons_r | eauto | done]. }
  destruct (py_in choice ["1"; "2"; "3"; "4"]).
  2: { wp_go. apply (Hnext st rest None); [used_lines Hin | done]. }
  destruct (py_in choice ["1"; "2"; "3"]).
  - wp_go. apply wp_input; cbn [stdin stdout]; [|eof_leaf].
    intros row rest1 ->.
    wp_go. apply wp_input; cbn [stdin stdout]; [|eof_leaf].
    intros column rest2 ->.
    destruct (negb (isdigit row) || negb (isdigit column)).
    { wp_go. apply (Hnext st rest2 None); [used_lines Hin | done]. }
    wp_go. apply wp_int; [intros _ | apply Hint].
    wp_go. apply wp_int; [intros _ | apply Hint].
    wp_go. destruct (String.eqb choice "2"); [|destruct (String.eqb choice "1")].
    + wp_go. apply wp_input; cbn [stdin stdout]; [|eof_leaf].
      intros passport rest3 ->.
      wp_go. apply wp_input; cbn [stdin stdout]; [|eof_leaf].
      intros first rest4 ->.
      wp_go. apply wp_input; cbn [stdin stdout]; [|eof_leaf].
      intros last rest5 ->.
      wp_go. apply wp_call.
      destruct (book_seat _ _ passport first last st) as [res st'|e st'|] eqn:Hb; [| |done].
      * assert (step (Book (decimal_value row - 1) (decimal_value column - 1)
                           passport first last) st = Some st') as Hstep
          by (simpl; by rewrite Hb).
        destruct res; wp_go; unfold pause; wp_go;
          (apply wp_input; cbn [stdin stdout];
           [ intros line rest6 ->; wp_go;
             apply (Hnext st' rest6 (Some _) ltac:(used_lines Hin) Hstep)
           | intros _; split; [done|]; intros Hr; split; [by eapply reachable_step | by left] ]).
      * exfalso.
        destruct (book_seat_final (decimal_value row - 1) (decimal_value column - 1)
                    passport first last st st') as [res Hres];
          [by rewrite Hb | congruence].
    + wp_go. apply wp_call.
      destruct (check_availability _ _ st) as [res st'|e st'|] eqn:Hc; [| |done].
      * assert (st' = st) as ->.
        { pose proof (check_availability_final (decimal_value row - 1)
                        (decimal_value column - 1) st) as Hfin.
          rewrite Hc in Hfin. by injection Hfin. }
        destruct res; wp_go; unfold pause; wp_go;
          (apply wp_input; cbn [stdin stdout];
           [ intros line rest6 ->; wp_go;
             apply (Hnext st rest6 None); [used_lines Hin | done]
           | eof_leaf ]).
      * assert (st' = st) as ->.
        { pose proof (check_availability_final (decimal_value row - 1)
                        (decimal_value column - 1) st) as Hfin.
          rewrite Hc in Hfin. by injection Hfin. }
        split; [done|]. intros Hr. exfalso.
        destruct (check_availability_on_reachable st (decimal_value row - 1)
                    (decimal_value column - 1) Hr) as (r & Hret & _).
        congruence.
    + wp_go. apply wp_call.
      destruct (free_seat _ _ st) as [res st'|e st'|] eqn:Hf; [| |done].
      * assert (step (Free (decimal_value row - 1) (decimal_value column - 1)) st = Some st')
          as Hstep by (simpl; by rewrite Hf).
        destruct res; wp_go; unfold pause; wp_go;
          (apply wp_input; cbn [stdin stdout];
           [ intros line rest6 ->; wp_go;
             apply (Hnext st' rest6 (Some _) ltac:(used_lines Hin) Hstep)
           | intros _; split; [done|]; intros Hr; split; [by eapply reachable_step | by left] ]).
      * exfalso.
        destruct (free_seat_final (decimal_value row - 1) (decimal_value column - 1) st st')
          as [res Hres]; [by rewrite Hf | congruence].
  - destruct (String.eqb choice "4").
    + wp_go. apply wp_show. unfold pause. wp_go.
      apply wp_input; cbn [stdin stdout]; [|eof_leaf].
      intros line rest1 ->. wp_go.
      apply (Hnext st rest1 None); [used_lines Hin | done].
    + unfold pause. wp_go.
      apply wp_input; cbn [stdin stdout]; [|eof_leaf].
      intros line rest1 ->. wp_go.
      apply (Hnext st rest1 None); [used_lines Hin | done].
Qed.

(** The bound on the rounds is never what ends [run]. *)
Lemma rounds_bound max n : ∀ m st con,
  (length (stdin con) < n)%nat → (length (stdin con) < m)%nat →
  rounds max n st con = rounds max m st con.
Proof.
  induction n as [|n IH]; intros [|m] st con Hn Hm; try lia.
  cbn [rounds]. unfold mbind, IO_bind.
  pose proof (round_spec max st con) as Hround. unfold wp in Hround.
  destruct (round max st con) as [[|] st' con'| |]; [done| |done..].
  destruct Hround as (Hlen & _). apply IH; lia.
Qed.

Lemma rounds_safe max n : ∀ st con,
  reachable st →
  wp (rounds max n)
     (fun _ st' con' => reachable st' ∧ "5" ∈ stdin con)
     (fun e st' con' =>
        reachable st' ∧ ((e = EOFError ∧ stdin con' = []) ∨ e = IntValueError))
     st con.
Proof.
  induction n as [|n IH]; intros st con Hr; [done|].
  cbn [rounds]. apply wp_bind.
  eapply wp_mono; [apply round_spec | |].
  - intros [|] st' con' (_ & Hsuf & Hbreak & Hreach).
    + apply wp_ret. destruct (Hbreak eq_refl) as (rest & -> & ->). split; [done | by left].
    + eapply wp_mono; [apply IH; auto | |]; [|done].
      intros _ st'' con'' [? Hin]. split; [done|].
      destruct Hsuf as [used ->]. apply elem_of_app. by right.
  - intros e st' con' [Heof Hreach]. destruct (Hreach Hr) as [? [-> | ->]]; auto.
Qed.

(** From a reachable state [run] ends, for every script of input lines,
    in one of three ways: it returns, which takes a line ["5"] in the
    script; it raises [EOFError], with every line read; or it raises the
    [ValueError] of [int]. It does not raise [IndexError] or [KeyError],
    and the object it leaves is in a reachable state. A run that could
    not be followed to its end is one whose draws ran out: no bound on the
    rounds beyond the number of lines changes the result. *)
Theorem run_ends_safely (max : nat) (st : state) (con : console) :
  reachable st →
  match run max st con with
  | Returned _ st' con' => reachable st' ∧ "5" ∈ stdin con
  | Failed e st' con' =>
      reachable st' ∧ ((e = EOFError ∧ stdin con' = []) ∨ e = IntValueError)
  | Stalled => True
  end ∧
  ∀ n, (length (stdin con) < n)%nat → rounds max n st con = run max st con.
Proof.
  intros Hr. split.
  - apply (rounds_safe max (S (length (stdin con))) st con Hr).
  - intros n Hn. unfold run. apply rounds_bound; lia.
Qed.

Lemma run_ends_safely_witness :
  match run 4300 new_system (Console ["2"; "7"; "1"; "P123"; "Ann"; "Lee"; ""; "5"] []) with
  | Returned _ st' con' =>
      reachable st' ∧ "5" ∈ stdin (Console ["2"; "7"; "1"; "P123"; "Ann"; "Lee"; ""; "5"] [])
  | Failed e st' con' =>
      reachable st' ∧ ((e = EOFError ∧ stdin con' = []) ∨ e = IntValueError)
  | Stalled => True
  end ∧
  ∀ n, (length (stdin (Console ["2"; "7"; "1"; "P123"; "Ann"; "Lee"; ""; "5"] [])) < n)%nat →
       rounds 4300 n new_system (Console ["2"; "7"; "1"; "P123"; "Ann"; "Lee"; ""; "5"] [])
       = run 4300 new_system (Console ["2"; "7"; "1"; "P123"; "Ann"; "Lee"; ""; "5"] []).
Proof.
  apply (run_ends_safely 4300 new_system
           (Console ["2"; "7"; "1"; "P123"; "Ann"; "Lee"; ""; "5"] [])).
  apply reachable_init.
Defined.

(** ** Entries that [isdigit] accepts and [int] refuses *)

Lemma twp_bind {A B} (m : IO A) (k : A → IO B) Q E st con :
  twp m (fun a => twp (k a) Q E) E st con → twp (m ≫= k) Q E st con.
Proof. unfold twp, mbind, IO_bind. by destruct (m st con). Qed.

Lemma twp_text t s Q E st con : t = inr s → Q s st con → twp (text t) Q E st con.
Proof. by intros ->. Qed.

Lemma twp_print s Q E st con :
  Q tt st (Console (stdin con) (stdout con ++ [Printed s])) → twp (print s) Q E st con.
Proof. done. Qed.

Lemma twp_ret {A} (a : A) Q E st con : Q a st con → twp (mret a) Q E st con.
Proof. done. Qed.

Lemma twp_input_line prompt Q E st line rest out :
  Q line st (Console rest (out ++ [Prompted prompt])) →
  twp (input prompt) Q E st (Console (line :: rest) out).
Proof. done. Qed.

Lemma twp_input_eof prompt Q E st out :
  E EOFError st (Console [] (out ++ [Prompted prompt])) →
  twp (input prompt) Q E st (Console [] out).
Proof. done. Qed.


Lemma twp_int max s Q E st con :
  Q (decimal_value s) st con → E IntValueError st con →
  twp (int_of_digits max s) Q E st con.
Proof. unfold twp, int_of_digits. by destruct (_ && _). Qed.

Lemma twp_call {A} (m : M A) a st' Q E st con :
  m st = Done a st' → Q a st' con → twp (call m) Q E st con.
Proof. unfold twp, call. by intros ->. Qed.

Lemma twp_elim {A} (m : IO A) Q E st con :
  twp m Q E st con →
  (∃ a st' con', m st con = Returned a st' con' ∧ Q a st' con') ∨
  (∃ e st' con', m st con = Failed e st' con' ∧ E e st' con').
Proof. unfold twp. destruct (m st con); [left | right | done]; eauto. Qed.

Ltac twp_go :=
  repeat lazymatch goal with
    | |- twp (mbind _ _) _ _ _ _ => apply twp_bind
    | |- twp (text _) _ _ _ _ => eapply twp_text; [reflexivity|]
    | |- twp (print _) _ _ _ _ => apply twp_print; cbn [stdin stdout]
    | |- twp (mret _) _ _ _ _ => apply twp_ret
    | |- twp (input _) _ _ _ (Console (_ :: _) _) => apply twp_input_line
    | |- twp (input _) _ _ _ (Console [] _) => apply twp_input_eof
    end.

Lemma choice_123 choice :
  choice ∈ ["1"; "2"; "3"] →
  String.eqb choice "5" = false ∧ py_in choice ["1"; "2"; "3"; "4"] = true ∧
  py_in choice ["1"; "2"; "3"] = true.
Proof.
  intros Hchoice.
  repeat (apply elem_of_cons in Hchoice as [-> | Hchoice]; [done|]).
  by apply elem_of_nil in Hchoice.
Qed.



(** ** Row 0 and column 0 at the menu *)

Lemma last_row_alias st c :
  seating st = layout →
  cell_at st (-1) c = cell_at st 6 c ∧ ∀ v, write_at st (-1) c v = write_at st 6 c v.
Proof. intros Hseat. unfold cell_at, write_at. by rewrite Hseat. Qed.

Lemma last_row_methods st c :
  seating st = layout →
  check_availability (-1) c st = check_availability 6 c st ∧
  free_seat (-1) c st = free_seat 6 c st.
Proof.
  intros Hseat. rewrite !check_availability_eq, !free_seat_eq.
  destruct (last_row_alias st c Hseat) as [-> _]. split; [done|].
  destruct (cell_at st 6 c) as [v|]; [|done].
  destruct (_ || _); [done|]. case_decide; [|done].
  by destruct (last_row_alias (set_bookings (delete v (bookings st)) st) c Hseat) as [_ ->].
Qed.

Lemma int_of_digits_one_digit max (d : ascii) st con :
  is_decimal_char d = true →
  int_of_digits max (String d "") st con = Returned (decimal_value (String d "")) st con.
Proof.
  intros Hd. unfold int_of_digits. cbn [list_ascii_of_string forallb String.length].
  rewrite Hd. by destruct max.
Qed.

Lemma round_row_zero max st choice rest out :
  seating st = layout → choice = "1" ∨ choice = "3" →
  round max st (Console (choice :: "0" :: rest) out)
  = round max st (Console (choice :: "7" :: rest) out).
Proof.
  intros Hseat Hchoice.
  destruct rest as [|column rest]; [by destruct Hchoice as [-> | ->]|].
  unfold round, mbind, IO_bind, py_in.
  destruct Hchoice as [-> | ->];
    cbn -[isdigit int_of_digits check_availability free_seat pause String.append];
    change (isdigit "0") with true; change (isdigit "7") with true; cbn [negb orb];
    (destruct (isdigit column); cbn [negb]; [|reflexivity]);
    rewrite !int_of_digits_one_digit by reflexivity;
    change (decimal_value "0" - 1) with (-1); change (decimal_value "7" - 1) with 6;
    unfold int_of_digits; (destruct (_ && _); [|reflexivity]); unfold call;
    destruct (last_row_methods st (decimal_value column - 1) Hseat) as [H1 H2];
    by rewrite ?H1, ?H2.
Qed.

Lemma last_column_methods st r :
  shape st →
  check_availability r (-1) st = check_availability r 3 st ∧
  free_seat r (-1) st = free_seat r 3 st.
Proof.
  intros Hs.
  assert (∀ st', shape st' →
            cell_at st' r (-1) = cell_at st' r 3 ∧
            ∀ v, write_at st' r (-1) v = write_at st' r 3 v) as Halias.
  { intros st' (_ & _ & Hrows). unfold cell_at, write_at.
    destruct (item (seating st') r) as [l|]; simpl; [|done].
    unfold item, deref. destruct (store st' !! l) as [row|] eqn:Hl; simpl; [|done].
    eapply Forall_lookup in Hrows; [|exact Hl]. simpl in Hrows. by rewrite Hrows. }
  rewrite !check_availability_eq, !free_seat_eq.
  destruct (Halias st Hs) as [-> _]. split; [done|].
  destruct (cell_at st r 3) as [v|]; [|done].
  destruct (_ || _); [done|]. case_decide; [|done].
  by destruct (Halias (set_bookings (delete v (bookings st)) st) Hs) as [_ ->].
Qed.

Lemma round_column_zero max st choice row rest out :
  shape st → choice = "1" ∨ choice = "3" →
  round max st (Console (choice :: row :: "0" :: rest) out)
  = round max st (Console (choice :: row :: "4" :: rest) out).
Proof.
  intros Hs Hchoice.
  unfold round, mbind, IO_bind, py_in.
  destruct Hchoice as [-> | ->];
    cbn -[isdigit int_of_digits check_availability free_seat pause String.append];
    change (isdigit "0") with true; change (isdigit "4") with true;
    (destruct (isdigit row); cbn [negb orb]; [|reflexivity]);
    unfold int_of_digits at 1 3; (destruct (_ && _); [|reflexivity]);
    rewrite !int_of_digits_one_digit by reflexivity;
    change (decimal_value "0" - 1) with (-1); change (decimal_value "4" - 1) with 3;
    unfold call;
    destruct (last_column_methods st (decimal_value row - 1) Hs) as [H1 H2];
    by rewrite ?H1, ?H2.
Qed.

(** At the menu the entries are taken one less, with no check that they
    are at least 1: in every reachable state, for the options 1 and 3, a
    round with row entry 0 does what the round with row entry 7 does, and
    a round with column entry 0 what the one with column entry 4 does. *)
Theorem menu_zero_is_last (max : nat) (st : state) (choice : string) :
  reachable st → choice ∈ ["1"; "3"] →
  (∀ rest out,
     round max st (Console (choice :: "0" :: rest) out)
     = round max st (Console (choice :: "7" :: rest) out)) ∧
  (∀ row rest out,
     round max st (Console (choice :: row :: "0" :: rest) out)
     = round max st (Console (choice :: row :: "4" :: rest) out)).
Proof.
  intros Hs%reachable_shape Hchoice.
  assert (choice = "1" ∨ choice = "3") as Hc.
  { repeat (apply elem_of_cons in Hchoice as [-> | Hchoice]; [auto|]).
    by apply elem_of_nil in Hchoice. }
  split.
  - intros. apply round_row_zero; [by destruct Hs | done].
  - intros. by apply round_column_zero.
Qed.

Lemma menu_zero_is_last_witness :
  (∀ rest out,
     round 4300 last_row_booking (Console ("3" :: "0" :: rest) out)
     = round 4300 last_row_booking (Console ("3" :: "7" :: rest) out)) ∧
  (∀ row rest out,
     round 4300 last_row_booking (Console ("3" :: row :: "0" :: rest) out)
     = round 4300 last_row_booking (Console ("3" :: row :: "4" :: rest) out)).
Proof.
  apply (menu_zero_is_last 4300 last_row_booking "3").
  - apply (reachable_step new_system (Book 5 0 "P123" "Ann" "Lee"));
      [apply reachable_init | reflexivity].
  - right. by left.
Defined.

(** On a run: with seat (5, 0) booked, the entries 3, 0, 1 at the menu
    free it. *)
Example menu_row_zero_frees :
  match round 4300 last_row_booking (Console ["3"; "0"; "1"; ""] []) with
  | Returned Next st' _ =>
      st' = after (free_seat 6 0) last_row_booking ∧ bookings st' = ∅
  | _ => False
  end.
Proof. vm_compute. done. Qed.

(** ** Entries the menu turns down *)

Lemma py_in_false x t : x ∉ t → py_in x t = false.
Proof.
  unfold py_in. induction t as [|y t IH]; simpl; [done|].
  intros Hn. rewrite IH by (intros ?; apply Hn; by right).
  rewrite orb_false_r. apply String.eqb_neq. intros ->. apply Hn. by left.
Qed.

(** An option other than 1 to 5, and a row or column entry on which
    [isdigit] fails, are answered with a message and the next round: the
    object is as it was, and the lines read are those of this round. *)
Theorem invalid_entries_ask_again (max : nat) (st : state) (out : list event)
    (rest : list string) :
  (∀ choice,
     choice ∉ ["1"; "2"; "3"; "4"; "5"] →
     ∃ out', round max st (Console (choice :: rest) out)
             = Returned Next st (Console rest out')) ∧
  (∀ choice row column,
     choice ∈ ["1"; "2"; "3"] →
     isdigit row = false ∨ isdigit column = false →
     ∃ out', round max st (Console (choice :: row :: column :: rest) out)
             = Returned Next st (Console rest out')).
Proof.
  split.
  - intros choice Hn.
    assert (twp (round max) (fun c st' con' => c = Next ∧ st' = st ∧ stdin con' = rest)
                (fun _ _ _ => False) st (Console (choice :: rest) out)) as Hround.
    { unfold round. twp_go.
      assert (String.eqb choice "5" = false) as ->.
      { apply String.eqb_neq. intros ->. apply Hn. do 4 right. by left. }
      rewrite py_in_false; [twp_go; done|].
      intros Hin. apply Hn.
      repeat (apply elem_of_cons in Hin as [-> | Hin]; [repeat (first [by left | right])|]).
      by apply elem_of_nil in Hin. }
    apply twp_elim in Hround
      as [(c & st' & [lines out'] & Hround & -> & -> & Hrest) | (? & ? & ? & _ & [])].
    simpl in Hrest. subst lines. eauto.
  - intros choice row column (H5 & H14 & H13)%choice_123 Hbad.
    assert (twp (round max) (fun c st' con' => c = Next ∧ st' = st ∧ stdin con' = rest)
                (fun _ _ _ => False) st (Console (choice :: row :: column :: rest) out))
      as Hround.
    { unfold round. twp_go. rewrite H5, H14, H13. twp_go.
      assert (negb (isdigit row) || negb (isdigit column) = true) as ->
        by (destruct Hbad as [-> | ->]; [done | by rewrite orb_true_r]).
      twp_go. done. }
    apply twp_elim in Hround
      as [(c & st' & [lines out'] & Hround & -> & -> & Hrest) | (? & ? & ? & _ & [])].
    simpl in Hrest. subst lines. eauto.
Qed.

Lemma invalid_entries_ask_again_witness :
  (∃ out', round 4300 new_system (Console ("book" :: ["5"]) [])
           = Returned Next new_system (Console ["5"] out')) ∧
  (∃ out', round 4300 new_system (Console ("2" :: "-1" :: "" :: ["5"]) [])
           = Returned Next new_system (Console ["5"] out')).
Proof.
  split.
  - apply (proj1 (invalid_entries_ask_again 4300 new_system [] ["5"]) "book").
    intros Hin. repeat (apply elem_of_cons in Hin as [[=] | Hin]).
    by apply elem_of_nil in Hin.
  - apply (proj2 (invalid_entries_ask_again 4300 new_system [] ["5"]) "2" "-1" "").
    + right. by left.
    + by left.
Defined.

(** ** [run] comes to an end *)

Lemma twp_input prompt Q E st con :
  (∀ line rest, stdin con = line :: rest →
                Q line st (Console rest (stdout con ++ [Prompted prompt]))) →
  (stdin con = [] → E EOFError st (Console [] (stdout con ++ [Prompted prompt]))) →
  twp (input prompt) Q E st con.
Proof. unfold twp, input. destruct (stdin con); eauto. Qed.

Lemma twp_call_any {A} (m : M A) Q E st con :
  match m st with
  | Done a st' => Q a st' con
  | Raised e st' => E (Engine e) st' con
  | Starved => False
  end →
  twp (call m) Q E st con.
Proof. unfold twp, call. by destruct (m st). Qed.

Lemma twp_show Q E st con :
  Q tt st (Console (stdin con)
                   (stdout con ++ map Printed (rows_text st 0 (seating st) ++ [legend]))) →
  twp show_booking_state Q E st con.
Proof. unfold twp. by rewrite show_booking_state_eq. Qed.

(** With a fresh draw at hand [book_seat] returns, and uses at most that
    draw. *)
Lemma book_seat_fresh row column passport first last st :
  fresh_draws st → rng st ≠ [] →
  ∃ res st',
    book_seat row column passport first last st = Done res st' ∧
    fresh_draws st' ∧ (length (rng st) ≤ S (length (rng st')))%nat.
Proof.
  intros [Hnd Hall] Hne.
  destruct (decide (cell_at st row column = Some "F")) as [Hc|Hc].
  2: { exists SeatUnavailable, st. rewrite book_seat_refused by done.
       split_and!; [done | by split | lia]. }
  destruct (rng st) as [|d rest] eqn:Hrng; [done|].
  apply Forall_cons in Hall as [Hd Hrest].
  simpl in Hnd. apply NoDup_cons in Hnd as [Hnew Hnd].
  assert (first_fresh (bookings st) (rng st) = Some (reference_of_draw d, rest)) as Hf.
  { rewrite Hrng. simpl. by rewrite decide_True. }
  destruct (book_seat_Free row column passport first last st _ _ Hc Hf)
    as (st1 & Hw & _ & ->).
  apply write_at_frame in Hw as (_ & _ & Hr1). cbn [rng set_rng] in Hr1.
  eexists _, _. split; [done|].
  unfold fresh_draws. cbn [rng bookings set_bookings]. rewrite Hr1.
  split_and!; [done | | simpl; lia].
  apply Forall_forall. intros d' Hd'. rewrite dom_insert, not_elem_of_union. split.
  - intros Heq%elem_of_singleton. apply Hnew. rewrite <- Heq.
    by apply list_elem_of_In, in_map, list_elem_of_In.
  - by eapply Forall_forall in Hrest.
Qed.

(** [free_seat] returns, and uses no draw. *)
Lemma free_seat_fresh row column st :
  fresh_draws st →
  ∃ res st',
    free_seat row column st = Done res st' ∧ fresh_draws st' ∧ rng st' = rng st.
Proof.
  intros [Hnd Hall].
  destruct (free_seat row column st) as [res st'|e st'|] eqn:Hf.
  - exists res, st'. split; [done|].
    apply free_seat_inv in Hf as [[_ ->] | (ref & _ & _ & _ & _ & Hw)]; [by split_and!|].
    apply write_at_frame in Hw as (_ & Hb & Hr). cbn [rng bookings set_bookings] in Hb, Hr.
    unfold fresh_draws. rewrite Hb, Hr. split_and!; [done | | done].
    eapply Forall_impl; [exact Hall|]. intros d Hd. rewrite dom_delete. by intros [? _]%elem_of_difference.
  - destruct (free_seat_final row column st st') as [res Hres]; [by rewrite Hf | congruence].
  - rewrite free_seat_eq in Hf. destruct (cell_at st row column) as [c|] eqn:Hc; [|done].
    destruct (py_in c ["X"; "S"] || String.eqb c "F"); [done|].
    case_decide; [|done].
    destruct (write_at_cell (set_bookings (delete c (bookings st)) st) row column c "F" Hc)
      as (st2 & Hw & _).
    by rewrite Hw in Hf.
Qed.

Ltac lines_left := cbn beta; cbn [stdin]; split; [done | lia].

(** A round ends when the draws to come are fresh and no fewer than the
    lines to come, and leaves them so. *)
Lemma round_total max st con :
  fresh_draws st → (length (stdin con) ≤ length (rng st))%nat →
  twp (round max)
      (fun _ st' con' => fresh_draws st' ∧ (length (stdin con') ≤ length (rng st'))%nat)
      (fun _ _ _ => True) st con.
Proof.
  intros Hfresh Hlen.
  unfold round. twp_go. apply twp_input; cbn [stdin stdout]; [|done].
  intros choice rest Hin. rewrite Hin in Hlen. simpl in Hlen.
  destruct (String.eqb choice "5").
  { twp_go. lines_left. }
  destruct (py_in choice ["1"; "2"; "3"; "4"]).
  2: { twp_go. lines_left. }
  destruct (py_in choice ["1"; "2"; "3"]).
  - twp_go. apply twp_input; cbn [stdin stdout]; [|done].
    intros row rest1 ->. simpl in Hlen.
    twp_go. apply twp_input; cbn [stdin stdout]; [|done].
    intros column rest2 ->. simpl in Hlen.
    destruct (negb (isdigit row) || negb (isdigit column)).
    { twp_go. lines_left. }
    twp_go. apply twp_int; [|done].
    twp_go. apply twp_int; [|done].
    twp_go. destruct (String.eqb choice "2"); [|destruct (String.eqb choice "1")].
    + twp_go. apply twp_input; cbn [stdin stdout]; [|done].
      intros passport rest3 ->. simpl in Hlen.
      twp_go. apply twp_input; cbn [stdin stdout]; [|done].
      intros first rest4 ->. simpl in Hlen.
      twp_go. apply twp_input; cbn [stdin stdout]; [|done].
      intros last rest5 ->. simpl in Hlen.
      twp_go. apply twp_call_any.
      destruct (book_seat_fresh (decimal_value row - 1) (decimal_value column - 1)
                  passport first last st Hfresh) as (res & st' & -> & Hfresh' & Hlen').
      { intros Hnil. rewrite Hnil in Hlen. simpl in Hlen. lia. }
      destruct res; twp_go; unfold pause; twp_go;
        (apply twp_input; cbn [stdin stdout]; [|done];
         intros line rest6 ->; simpl in Hlen; twp_go; lines_left).
    + twp_go. apply twp_call_any.
      pose proof (check_availability_final (decimal_value row - 1)
                    (decimal_value column - 1) st) as Hfin.
      destruct (check_availability _ _ st) as [res st'|e st'|]; [|done..].
      injection Hfin as ->.
      destruct res; twp_go; unfold pause; twp_go;
        (apply twp_input; cbn [stdin stdout]; [|done];
         intros line rest6 ->; simpl in Hlen; twp_go; lines_left).
    + twp_go. apply twp_call_any.
      destruct (free_seat_fresh (decimal_value row - 1) (decimal_value column - 1) st Hfresh)
        as (res & st' & -> & Hfresh' & Hrng).
      destruct res; twp_go; unfold pause; twp_go;
        (apply twp_input; cbn [stdin stdout]; [|done];
         intros line rest6 ->; simpl in Hlen; twp_go; rewrite <- Hrng in Hlen; lines_left).
  - destruct (String.eqb choice "4").
    + twp_go. apply twp_show. cbn [stdin stdout]. unfold pause. twp_go.
      apply twp_input; cbn [stdin stdout]; [|done].
      intros line rest1 ->. simpl in Hlen. twp_go. lines_left.
    + unfold pause. twp_go.
      apply twp_input; cbn [stdin stdout]; [|done].
      intros line rest1 ->. simpl in Hlen. twp_go. lines_left.
Qed.

Lemma rounds_total max n : ∀ st con,
  fresh_draws st → (length (stdin con) ≤ length (rng st))%nat →
  (length (stdin con) < n)%nat →
  twp (rounds max n)
      (fun _ st' con' => fresh_draws st' ∧ (length (stdin con') ≤ length (rng st'))%nat)
      (fun _ _ _ => True) st con.
Proof.
  induction n as [|n IH]; intros st con Hfresh Hlen Hn; [lia|].
  cbn [rounds]. apply twp_bind.
  pose proof (round_total max st con Hfresh Hlen) as Ht.
  pose proof (round_spec max st con) as Hs.
  unfold wp in Hs. unfold twp at 1. unfold twp in Ht.
  destruct (round max st con) as [[|] st' con'| |]; [by apply twp_ret | | done..].
  destruct Ht as [Hfresh' Hlen'], Hs as (Hless & _).
  apply IH; [done | done | lia].
Qed.

(** [run] comes to an end, whatever the state it starts from, when the
    draws to come give references that differ from one another and from
    the keys of the ledger, and are no fewer than the lines of the
    script: it returns or it raises, and the draws left are again fresh
    and no fewer than the lines left. *)
Theorem run_ends (max : nat) (st : state) (con : console) :
  fresh_draws st → (length (stdin con) ≤ length (rng st))%nat →
  match run max st con with
  | Returned _ st' con' =>
      fresh_draws st' ∧ (length (stdin con') ≤ length (rng st'))%nat
  | Failed _ _ _ => True
  | Stalled => False
  end.
Proof.
  intros Hfresh Hlen.
  apply (rounds_total max (S (length (stdin con))) st con Hfresh Hlen). lia.
Qed.

Lemma run_ends_witness :
  match run 4300 fresh_system
            (Console ["2"; "7"; "1"; "P123"; "Ann"; "Lee"; ""; "5"] []) with
  | Returned _ st' con' =>
      fresh_draws st' ∧ (length (stdin con') ≤ length (rng st'))%nat
  | Failed _ _ _ => True
  | Stalled => False
  end.
Proof.
  apply (run_ends 4300 fresh_system
           (Console ["2"; "7"; "1"; "P123"; "Ann"; "Lee"; ""; "5"] [])).
  - split.
    + apply (bool_decide_unpack _). by vm_compute.
    + apply (bool_decide_unpack _). by vm_compute.
  - simpl. lia.
Defined.

(** ** The two ways to call [is_seat_valid] *)

(** With [seat] given, [is_seat_valid] answers for that value, whatever
    the coordinates and the state, and does not raise; the answer for
    coordinates is the answer for the value of the cell they index; with
    no [seat] and a coordinate missing it raises [Exception] and leaves
    the state as it was. *)
Theorem is_seat_valid_by_value (st : state) (row column : option Z) (seat : string) :
  is_seat_valid row column (Some seat) st = Done (negb (py_in seat ["X"; "S"])) st ∧
  (∀ r c, cell_at st r c = Some seat →
          is_seat_valid (Some r) (Some c) None st = is_seat_valid row column (Some seat) st) ∧
  (row = None ∨ column = None →
   is_seat_valid row column None st
   = Raised (Exception "Row and column must have a number!") st).
Proof.
  split_and!.
  - done.
  - intros r c Hc. by rewrite is_seat_valid_eq, Hc.
  - intros [-> | ->]; [done | by destruct row].
Qed.

Lemma is_seat_valid_by_value_witness :
  is_seat_valid None (Some 2) (Some "ABCDEFGH") one_booking
  = Done (negb (py_in "ABCDEFGH" ["X"; "S"])) one_booking ∧
  (∀ r c, cell_at one_booking r c = Some "ABCDEFGH" →
          is_seat_valid (Some r) (Some c) None one_booking
          = is_seat_valid None (Some 2) (Some "ABCDEFGH") one_booking) ∧
  (@None Z = None ∨ Some 2 = None →
   is_seat_valid None (Some 2) None one_booking
   = Raised (Exception "Row and column must have a number!") one_booking).
Proof. apply (is_seat_valid_by_value one_booking None (Some 2) "ABCDEFGH"). Defined.

(** ** When the sampling loop returns *)

Lemma first_fresh_split bk draws :
  match first_fresh bk draws with
  | Some (ref, rest) =>
      ∃ skipped d,
        draws = skipped ++ d :: rest ∧
        Forall (fun d' => reference_of_draw d' ∈ dom bk) skipped ∧
        ref = reference_of_draw d ∧ ref ∉ dom bk
  | None => Forall (fun d => reference_of_draw d ∈ dom bk) draws
  end.
Proof.
  induction draws as [|d draws IH]; simpl; [done|].
  destruct (decide (reference_of_draw d ∉ dom bk)) as [Hd | Hd].
  - exists [], d. by split_and!.
  - apply dec_stable in Hd.
    destruct (first_fresh bk draws) as [[ref rest]|].
    + destruct IH as (skipped & d' & -> & Hsk & -> & Hnew).
      exists (d :: skipped), d'. split_and!; try done. by constructor.
    + by constructor.
Qed.

(** [generate_unique_booking_reference] does not raise and touches
    neither grid nor ledger. It returns the reference of the first draw
    that is not a key of the ledger, having used up the draws before it,
    each of which gave a key of the ledger; it does not return only when
    every draw gives a key of the ledger. *)
Theorem generate_returns_first_fresh (st : state) :
  match generate_unique_booking_reference st with
  | Done ref st' =>
      ∃ skipped d rest,
        rng st = skipped ++ d :: rest ∧
        Forall (fun d' => reference_of_draw d' ∈ dom (bookings st)) skipped ∧
        ref = reference_of_draw d ∧ (ref ∉ dom (bookings st)) ∧
        st' = set_rng rest st
  | Raised _ _ => False
  | Starved => Forall (fun d => reference_of_draw d ∈ dom (bookings st)) (rng st)
  end.
Proof.
  rewrite generate_unique_booking_reference_eq.
  pose proof (first_fresh_split (bookings st) (rng st)) as H.
  destruct (first_fresh (bookings st) (rng st)) as [[ref rest]|]; [|done].
  destruct H as (skipped & d & ? & ? & ? & ?). exists skipped, d, rest. done.
Qed.

(** The loop is seen to skip a draw: with ["ABCDEFGH"] in the ledger and
    the draws of ["ABCDEFGH"] and ["Z0123456"] to come, the second is
    returned. *)
Example generate_skips_collision :
  generate_unique_booking_reference one_booking = Done "Z0123456" (set_rng [] one_booking).
Proof. reflexivity. Qed.
